(** * Soft Actor-Critic trainer and greedy policy of garage, embedded in Rocq

    Sources:
    - [garage/torch/algos/sac.py]        class [SAC]
    - [garage/torch/policies/argmax.py]  class [ArgmaxDiscretePolicy]

    The embedding is shallow.  Python objects that are mutated in place
    (networks, the trainer, the optimizers) live in an explicit world that is
    threaded through a state-and-exception monad; the deep-learning framework
    (network forward passes, automatic differentiation, the optimizer rule,
    the replay buffer, random sampling) is a type class.  Numbers are
    exact rationals: rounding of machine floats is outside the model. *)

From Stdlib Require Import QArith Qcanon Lia.
From stdpp Require Import numbers gmap strings fin_maps list.

Open Scope Qc_scope.

(** ** Numbers, tensors, exceptions *)

(** One element of a tensor. *)
Abbreviation scalar := Qc.

(** A reduced value ([tensor.mean()], [np.mean]): the mean of an empty
    tensor is [nan] and raises nothing. *)
Inductive fscalar : Type :=
| Fin (q : scalar)
| NaN.

(** A one-dimensional tensor (a flattened batch of values, or the flattened
    elements of one parameter tensor). *)
Abbreviation tensor := (list scalar).

(** The Python exceptions that the modelled code can raise. *)
Inductive exn : Type :=
| AttributeError (attr : string)
| RuntimeError (msg : string)
| ValueError (msg : string)
| ZeroDivisionError
| ModuleNotFoundError (name : string)
| DanglingReference.

(** Result of a computation that touches no object: a value or an exception. *)
Inductive result (A : Type) : Type :=
| Val (a : A)
| Exn (e : exn).
Arguments Val {A} a.
Arguments Exn {A} e.

Definition result_bind {A B} (r : result A) (k : A → result B) : result B :=
  match r with
  | Val a => k a
  | Exn e => Exn e
  end.

(** Elementwise binary operation on one-dimensional tensors with torch's
    broadcasting rule: equal sizes combine pointwise, a size-one operand is
    stretched, anything else raises. *)
Definition broadcast2 (f : scalar → scalar → scalar) (a b : tensor)
  : result tensor :=
  if decide (length a = length b) then Val (zip_with f a b)
  else match a, b with
       | [x], _ => Val (map (f x) b)
       | _, [y] => Val (map (λ x, f x y) a)
       | _, _ => Exn (RuntimeError "The size of tensor a must match the size of tensor b")
       end.

(** [c * t] and [t * c] for a Python number [c]. *)
Definition scale (c : scalar) (t : tensor) : tensor := map (λ x, c * x) t.
Definition scale_r (t : tensor) (c : scalar) : tensor := map (λ x, x * c) t.

Definition tsum (t : tensor) : scalar := foldr Qcplus 0 t.

(** [t.mean()] *)
Definition mean (t : tensor) : fscalar :=
  match t with
  | [] => NaN
  | _ => Fin (tsum t / Q2Qc (inject_Z (Z.of_nat (length t))))
  end.

Definition fscale (c : scalar) (v : fscalar) : fscalar :=
  match v with
  | Fin q => Fin (c * q)
  | NaN => NaN
  end.

(** [F.mse_loss(input, target)] with the default reduction ['mean']. *)
Definition mse_loss (input target : tensor) : result fscalar :=
  result_bind (broadcast2 (λ x y, (x - y) * (x - y)) input target)
              (λ d, Val (mean d)).

(** ** The greedy discrete policy, [argmax.py] *)

(** A numpy array or torch tensor of any rank: its shape and its elements in
    row-major order. *)
Record ndarray : Type := { shape : list nat; data : list scalar }.

(** [np.expand_dims(a, axis=0)] *)
Definition expand_dims0 (a : ndarray) : ndarray :=
  {| shape := 1%nat :: shape a; data := data a |}.

(** [t.squeeze(0)]: drops the first dimension when its size is one and
    returns the tensor as it is otherwise. *)
Definition squeeze0 (a : ndarray) : ndarray :=
  match shape a with
  | 1%nat :: s => {| shape := s; data := data a |}
  | _ => a
  end.

(** Scan of [ndarray.argmax()]: [best_i] holds the best value [best] seen so
    far, [i] is the index of the head of [l].  A later element wins only when
    it is strictly larger, so the first maximum is returned. *)
Fixpoint argmax_from (best_i : nat) (best : scalar) (i : nat) (l : list scalar)
  : nat :=
  match l with
  | [] => best_i
  | x :: l' =>
      if decide (best < x) then argmax_from i x (S i) l'
      else argmax_from best_i best (S i) l'
  end.

(** [a.argmax()] without an axis: index into the flattened array. *)
Definition argmax (a : ndarray) : result nat :=
  match data a with
  | [] => Exn (ValueError "attempt to get argmax of an empty sequence")
  | x :: l => Val (argmax_from 0 x 1 l)
  end.

(** [ptu.from_numpy(obs).float()] and [ptu.get_numpy(t)] change the container
    (numpy array, torch tensor) and keep shape and elements. *)
Definition from_numpy_float (a : ndarray) : ndarray := a.
Definition get_numpy (a : ndarray) : ndarray := a.

Section ArgmaxDiscretePolicy.
(** The wrapped Q-function: an object [qfunction] and its forward pass,
    which may raise (for instance on an input of the wrong width). *)
Context {qfunction : Type}.
Variable forward : qfunction → ndarray → result ndarray.

Record ArgmaxDiscretePolicy : Type := { qf : qfunction }.

(** The auxiliary info mapping returned next to the action. *)
Definition agent_info : Type := gmap string ndarray.

(** [get_action(self, obs)]; the object is returned next to the result to
    make explicit what the call leaves in [self]. *)
Definition get_action (self : ArgmaxDiscretePolicy) (obs : ndarray)
  : result (nat * agent_info) * ArgmaxDiscretePolicy :=
  let obs := expand_dims0 obs in
  let obs := from_numpy_float obs in
  (result_bind (forward (qf self) obs) (λ out,
     let q_values := squeeze0 out in
     let q_values_np := get_numpy q_values in
     result_bind (argmax q_values_np) (λ a, Val (a, ∅))),
   self).
End ArgmaxDiscretePolicy.

(** ** The collaborators of the SAC trainer

    Everything the trainer calls and does not define: the networks' forward
    passes, the policy's distribution, automatic differentiation, the
    optimizer rule (the constructor's [optimizer] argument, Adam by default),
    the replay buffer and the base class's [process_samples]. *)

(** What [process_samples] returns: the three entries [train_once] reads. *)
Record processed_paths : Type := {
  undiscounted_returns : list scalar;
  complete : list bool;
  path_success_history : list scalar;
}.

(** A minibatch: the dictionary returned by [replay_buffer.sample]. *)
Record batch (obs_batch act_batch : Type) : Type := {
  observation : obs_batch;
  action : act_batch;
  reward : tensor;
  next_observation : obs_batch;
  done : list bool;
}.
Arguments observation {_ _} _.
Arguments action {_ _} _.
Arguments reward {_ _} _.
Arguments next_observation {_ _} _.
Arguments done {_ _} _.

Class Framework : Type := {
  (** batches of observations and of actions, as the networks consume them *)
  obs_batch : Type;
  act_batch : Type;
  (** the state of the random number generators *)
  rng_state : Type;
  (** the action distribution returned by [policy(obs)] *)
  distribution : Type;
  (** the replay buffer object *)
  buffer : Type;
  (** the internal state of one optimizer (moments, step count) *)
  ostate : Type;
  (** raw trajectories handed to [train_once] *)
  raw_paths : Type;

  (** [policy.get_actions(obs)], first component of the returned pair *)
  get_actions : list tensor → obs_batch → rng_state → act_batch * rng_state;
  (** [policy.log_likelihood(obs, actions)] *)
  log_likelihood : list tensor → obs_batch → act_batch → tensor;
  (** [policy(obs)] *)
  policy_forward : list tensor → obs_batch → distribution;
  (** [dist.rsample()] *)
  rsample : distribution → rng_state → act_batch * rng_state;
  (** [qf(obs, actions)], one value per sample *)
  qf_forward : list tensor → obs_batch → act_batch → tensor;
  (** gradient of a scalar loss, given as a function of the parameters of
      the network it depends on, at the current parameters *)
  autograd : (list tensor → result fscalar) → list tensor → list tensor;
  (** [optimizer(params, lr=lr)] *)
  optimizer_init : scalar → list tensor → ostate;
  (** one [optimizer.step()]: old state, parameters, gradients *)
  optimizer_step : ostate → list tensor → list tensor → list tensor * ostate;
  (** [replay_buffer.sample(batch_size)] *)
  buffer_sample : buffer → nat → rng_state → batch obs_batch act_batch * rng_state;
  (** [replay_buffer.n_transitions_stored] *)
  n_transitions_stored : buffer → nat;
  (** [self.process_samples(itr, paths)], inherited from the base class *)
  process_samples : nat → raw_paths → processed_paths;
}.

(** The type of the minibatches of a framework. *)
Abbreviation minibatch := (batch obs_batch act_batch).

(** ** Objects and the world *)

(** Object identity of a network (a [torch.nn.Module]). *)
Abbreviation loc := nat.

(** A network object: its parameter tensors and their [.grad] buffers
    ([None] right after [zero_grad], filled by [backward]). *)
Record module : Type := {
  parameters : list tensor;
  grad : option (list tensor);
}.

(** An optimizer object: the network whose parameters it was built on and
    its internal state. *)
Record optimizer `{Framework} : Type := {
  opt_params : loc;
  opt_state : ostate;
}.

(** The attributes of a [SAC] instance that its methods read or write.  The
    constructor arguments that no modelled method reads ([max_path_length],
    the weight decays, the clipping options, ...) are left out. *)
Record SAC `{Framework} : Type := {
  policy : loc;
  qf1 : loc;
  qf2 : loc;
  alpha : scalar;
  replay_buffer : buffer;
  tau : scalar;
  policy_lr : scalar;
  qf_lr : scalar;
  n_train_steps : nat;
  n_epoch_cycles : nat;
  buffer_batch_size : nat;
  min_buffer_size : nat;
  discount : scalar;
  target_policy : loc;
  target_qf1 : loc;
  target_qf2 : loc;
  policy_optimizer : optimizer;
  qf1_optimizer : optimizer;
  qf2_optimizer : optimizer;
  use_automatic_entropy_tuning : bool;
  target_entropy : option scalar;
  episode_rewards : list scalar;
  success_history : list scalar;
}.

(** What a run of [train_once] does that is visible from outside, in order:
    calls into the replay buffer, stops in the debugger, and the calls of the
    trainer's own methods with their minibatch argument. *)
Inductive event `{Framework} : Type :=
| Sampled (batch_size : nat) (samples : minibatch)
| Breakpoint
| CallUpdateQ (samples : minibatch)
| CallOptimizePolicy (samples : minibatch)
| CallAdjustTemperature
| CallUpdateTargets.

Record world `{Framework} : Type := {
  heap : gmap loc module;
  self : SAC;
  rng : rng_state;
  (** the events so far, oldest first *)
  log : list event;
  (** whether [import ipdb] finds the package *)
  ipdb_importable : bool;
}.

(** ** The monad of the trainer's methods: state and exceptions

    A raised exception keeps the world as it was when it was raised: what a
    method has written before it fails stays written. *)

Inductive outcome `{Framework} (A : Type) : Type :=
| Ok (a : A) (w : world)
| Raise (e : exn) (w : world).
Arguments Ok {_ A} a w.
Arguments Raise {_ A} e w.

Definition M `{Framework} (A : Type) : Type := world → outcome A.

(** The world an outcome ends in, returned or raised. *)
Definition final `{Framework} {A} (o : outcome A) : world :=
  match o with
  | Ok _ w => w
  | Raise _ w => w
  end.

Section Monad.
Context `{Framework}.

Definition ret {A} (a : A) : M A := λ w, Ok a w.

Definition bind {A B} (m : M A) (k : A → M B) : M B :=
  λ w, match m w with
       | Ok a w' => k a w'
       | Raise e w' => Raise e w'
       end.

Definition raise {A} (e : exn) : M A := λ w, Raise e w.

Definition gets {A} (f : world → A) : M A := λ w, Ok (f w) w.

Definition modify (f : world → world) : M unit := λ w, Ok tt (f w).

Definition lift {A} (r : result A) : M A :=
  match r with
  | Val a => ret a
  | Exn e => raise e
  end.
End Monad.

(** The methods are written with stdpp's monad notation [x ← m; k]. *)
Global Instance M_ret `{Framework} : MRet M := @ret _.
Global Instance M_bind `{Framework} : MBind M := λ A B k m, bind m k.

(** [for x in l: body(x)] *)
Fixpoint for_each `{Framework} {A} (l : list A) (body : A → M unit) : M unit :=
  match l with
  | [] => mret tt
  | x :: l' => body x;; for_each l' body
  end.

(** ** Updates of the world *)

Section Updates.
Context `{Framework}.

Definition set_heap (h : gmap loc module) (w : world) : world :=
  {| heap := h; self := self w; rng := rng w; log := log w;
     ipdb_importable := ipdb_importable w |}.

Definition set_self (s : SAC) (w : world) : world :=
  {| heap := heap w; self := s; rng := rng w; log := log w;
     ipdb_importable := ipdb_importable w |}.

Definition set_rng (r : rng_state) (w : world) : world :=
  {| heap := heap w; self := self w; rng := r; log := log w;
     ipdb_importable := ipdb_importable w |}.

Definition set_log (l : list event) (w : world) : world :=
  {| heap := heap w; self := self w; rng := rng w; log := l;
     ipdb_importable := ipdb_importable w |}.

(** The three optimizers of the trainer, by attribute. *)
Inductive optimizer_attr : Type :=
| PolicyOptimizer
| Qf1Optimizer
| Qf2Optimizer.

Definition get_optimizer (o : optimizer_attr) (s : SAC) : optimizer :=
  match o with
  | PolicyOptimizer => policy_optimizer s
  | Qf1Optimizer => qf1_optimizer s
  | Qf2Optimizer => qf2_optimizer s
  end.

(** The trainer with three of its attributes replaced: the lists of episode
    statistics and the optimizers.  No method assigns any other attribute
    after construction. *)
Definition with_mutable (s : SAC) (er sh : list scalar)
    (po q1o q2o : optimizer) : SAC :=
  {| policy := policy s; qf1 := qf1 s; qf2 := qf2 s; alpha := alpha s;
     replay_buffer := replay_buffer s; tau := tau s;
     policy_lr := policy_lr s; qf_lr := qf_lr s;
     n_train_steps := n_train_steps s; n_epoch_cycles := n_epoch_cycles s;
     buffer_batch_size := buffer_batch_size s;
     min_buffer_size := min_buffer_size s; discount := discount s;
     target_policy := target_policy s; target_qf1 := target_qf1 s;
     target_qf2 := target_qf2 s;
     policy_optimizer := po; qf1_optimizer := q1o; qf2_optimizer := q2o;
     use_automatic_entropy_tuning := use_automatic_entropy_tuning s;
     target_entropy := target_entropy s;
     episode_rewards := er; success_history := sh |}.

Definition set_episode_rewards (er : list scalar) (s : SAC) : SAC :=
  with_mutable s er (success_history s)
    (policy_optimizer s) (qf1_optimizer s) (qf2_optimizer s).

Definition set_success_history (sh : list scalar) (s : SAC) : SAC :=
  with_mutable s (episode_rewards s) sh
    (policy_optimizer s) (qf1_optimizer s) (qf2_optimizer s).

Definition set_optimizer (o : optimizer_attr) (v : optimizer) (s : SAC) : SAC :=
  match o with
  | PolicyOptimizer =>
      with_mutable s (episode_rewards s) (success_history s)
        v (qf1_optimizer s) (qf2_optimizer s)
  | Qf1Optimizer =>
      with_mutable s (episode_rewards s) (success_history s)
        (policy_optimizer s) v (qf2_optimizer s)
  | Qf2Optimizer =>
      with_mutable s (episode_rewards s) (success_history s)
        (policy_optimizer s) (qf1_optimizer s) v
  end.

(** Reading an object through a reference. *)
Definition deref (l : loc) : M module :=
  λ w, match heap w !! l with
       | Some m => Ok m w
       | None => Raise DanglingReference w
       end.

(** [net.parameters()], the current values *)
Definition get_parameters (l : loc) : M (list tensor) :=
  m ← deref l; mret (parameters m).

(** Overwriting an object in place. *)
Definition store (l : loc) (m : module) : M unit :=
  modify (λ w, set_heap (<[l := m]> (heap w)) w).

Definition record (e : event) : M unit :=
  modify (λ w, set_log (log w ++ [e]) w).

(** Running a sampler on the generator state. *)
Definition draw {A} (f : rng_state → A * rng_state) : M A :=
  λ w, let '(a, r) := f (rng w) in Ok a (set_rng r w).
End Updates.

(** ** Tensors that carry a gradient graph, and the optimizer calls *)

(** A scalar tensor built by the trainer, such as a loss.  [grad_fn] is
    absent when every operand was computed under [torch.no_grad()] or is a
    plain number; otherwise it names the network whose parameters the value
    depends on and gives the value as a function of those parameters. *)
Record loss : Type := {
  loss_value : fscalar;
  grad_fn : option (loc * (list tensor → result fscalar));
}.

Definition Qcmin (x y : scalar) : scalar := if decide (x ≤ y) then x else y.

(** [0.5] *)
Definition one_half : scalar := Q2Qc (1 # 2).

Section Autograd.
Context `{Framework}.

(** [optimizer.zero_grad()] clears the [.grad] of the parameters the
    optimizer was built on (torch versions that fill it with zeros instead
    give the same gradient after the next [backward]). *)
Definition zero_grad (o : optimizer_attr) : M unit :=
  s ← gets self;
  let l := opt_params (get_optimizer o s) in
  m ← deref l;
  store l {| parameters := parameters m; grad := None |}.

(** [backward] adds to an existing [.grad] and sets an absent one. *)
Definition accumulate (old : option (list tensor)) (g : list tensor)
  : list tensor :=
  match old with
  | None => g
  | Some g0 => zip_with (zip_with Qcplus) g0 g
  end.

(** [t.backward()] *)
Definition backward (t : loss) : M unit :=
  match grad_fn t with
  | None =>
      raise (RuntimeError
        "element 0 of tensors does not require grad and does not have a grad_fn")
  | Some (leaf, f) =>
      m ← deref leaf;
      store leaf {| parameters := parameters m;
                    grad := Some (accumulate (grad m)
                                    (autograd f (parameters m))) |}
  end.

(** Attribute lookup on a tensor, restricted to the names the trainer
    uses: [torch.Tensor] has a method [backward] and no attribute
    [backwards]. *)
Definition tensor_getattr (name : string) : option (loss → M unit) :=
  if decide (name = "backward") then Some backward else None.

(** [t.name()] *)
Definition call_method (t : loss) (name : string) : M unit :=
  match tensor_getattr name with
  | Some method => method t
  | None => raise (AttributeError name)
  end.

(** [optimizer.step()]: parameters without a gradient are skipped. *)
Definition step (o : optimizer_attr) : M unit :=
  s ← gets self;
  let opt := get_optimizer o s in
  m ← deref (opt_params opt);
  match grad m with
  | None => mret tt
  | Some g =>
      let '(θ, st) := optimizer_step (opt_state opt) (parameters m) g in
      store (opt_params opt) {| parameters := θ; grad := grad m |};;
      modify (λ w, set_self (set_optimizer o
                {| opt_params := opt_params opt; opt_state := st |}
                (self w)) w)
  end.
End Autograd.

(** ** The methods of [SAC] *)

Section SAC.
Context `{Framework}.

(** The Bellman residual of one critic as a function of that critic's
    parameters: [0.5 * F.mse_loss(qf(obs, actions).flatten(), bellman)]. *)
Definition q_objective_fn (obs : obs_batch) (actions : act_batch)
    (bellman : tensor) (θ : list tensor) : result fscalar :=
  result_bind (mse_loss (qf_forward θ obs actions) bellman)
              (λ v, Val (fscale one_half v)).

(** [update_q_functions(self, itr, samples)] *)
Definition update_q_functions (itr : nat) (samples : minibatch) : M unit :=
  let obs := observation samples in
  let actions := action samples in
  let rewards := reward samples in
  let next_obs := next_observation samples in
  s ← gets self;
  (* with torch.no_grad(): *)
  π ← get_parameters (policy s);
  next_actions ← draw (get_actions π next_obs);
  let next_ll := log_likelihood π next_obs next_actions in
  let qfs := [qf1 s; qf2 s] in
  let target_qfs := [target_qf1 s; target_qf2 s] in
  let qf_optimizers := [Qf1Optimizer; Qf2Optimizer] in
  for_each (zip target_qfs (zip qfs qf_optimizers))
    (λ '(target_qf, (qf, qf_optimizer)),
      θ ← get_parameters qf;
      let curr_q_val := qf_forward θ obs actions in
      (* with torch.no_grad(): *)
      θ' ← get_parameters target_qf;
      let targ_out := qf_forward θ' next_obs next_actions in
      s ← gets self;
      bootstrapped_value ←
        lift (broadcast2 Qcminus targ_out (scale (alpha s) next_ll));
      bellman ←
        lift (broadcast2 Qcplus rewards (scale (discount s) bootstrapped_value));
      v ← lift (result_bind (mse_loss curr_q_val bellman)
                  (λ v, Val (fscale one_half v)));
      let q_objective :=
        {| loss_value := v;
           grad_fn := Some (qf, q_objective_fn obs actions bellman) |} in
      zero_grad qf_optimizer;;
      call_method q_objective "backward";;
      step qf_optimizer).

(** [optimize_policy(self, itr, samples)] *)
Definition optimize_policy (itr : nat) (samples : minibatch) : M unit :=
  let obs := observation samples in
  s ← gets self;
  π ← get_parameters (policy s);
  let action_dists := policy_forward π obs in
  actions ← draw (rsample action_dists);
  (* with torch.no_grad(): *)
  let log_pi := log_likelihood π obs actions in
  (* with torch.no_grad(): *)
  θ1 ← get_parameters (qf1 s);
  θ2 ← get_parameters (qf2 s);
  min_q ← lift (broadcast2 Qcmin (qf_forward θ1 obs actions)
                                 (qf_forward θ2 obs actions));
  d ← lift (broadcast2 Qcminus (scale (alpha s) log_pi) min_q);
  let policy_objective := {| loss_value := mean d; grad_fn := None |} in
  zero_grad PolicyOptimizer;;
  call_method policy_objective "backwards";;
  step PolicyOptimizer.

(** [adjust_temperature(self, itr)]: the body is [pass]. *)
Definition adjust_temperature (itr : nat) : M unit := mret tt.

(** [t_param.data * (1.0 - tau) + param.data * tau] *)
Definition polyak (τ : scalar) (t_param param : tensor) : result tensor :=
  broadcast2 Qcplus (scale_r t_param (1 - τ)) (scale_r param τ).

(** [dst.copy_(src)]: the new elements of [dst]; [src] must have the size
    of [dst] or a single element. *)
Definition copy_ (dst src : tensor) : result tensor :=
  if decide (length src = length dst) then Val src
  else match src with
       | [x] => Val (replicate (length dst) x)
       | _ => Exn (RuntimeError "The size of tensor a must match the size of tensor b")
       end.

(** In-place assignment to the [j]-th parameter tensor of a network. *)
Definition copy_parameter (l : loc) (j : nat) (src : tensor) : M unit :=
  m ← deref l;
  match parameters m !! j with
  | None => mret tt
  | Some dst =>
      new ← lift (copy_ dst src);
      store l {| parameters := <[j := new]> (parameters m);
                 grad := grad m |}
  end.

(** [update_targets(self)] *)
Definition update_targets : M unit :=
  s ← gets self;
  let target_qfs := [target_qf1 s; target_qf2 s] in
  let qfs := [qf1 s; qf2 s] in
  for_each (zip target_qfs qfs) (λ '(target_qf, qf),
    ts ← get_parameters target_qf;
    ps ← get_parameters qf;
    for_each (zip (seq 0 (length ts)) (zip ts ps))
      (λ '(j, (t_param, param)),
        s ← gets self;
        new ← lift (polyak (tau s) t_param param);
        copy_parameter target_qf j new)).

(** [import ipdb] *)
Definition import_ipdb : M unit :=
  λ w, if ipdb_importable w then Ok tt w
       else Raise (ModuleNotFoundError "ipdb") w.

(** [ipdb.set_trace()]: execution stops in the debugger; the model
    continues as after the operator's [continue]. *)
Definition set_trace : M unit := record Breakpoint.

(** [[x for x, c in zip(xs, cs) if c]] *)
Definition completed (xs : list scalar) (cs : list bool) : list scalar :=
  (filter (λ p, snd p = true) (zip xs cs)).*1.

(** [train_once(self, itr, paths)] *)
Definition train_once (itr : nat) (paths : raw_paths) : M fscalar :=
  let paths := process_samples itr paths in
  s ← gets self;
  (* epoch = itr / self.n_epoch_cycles *)
  (if decide (n_epoch_cycles s = 0%nat) then raise ZeroDivisionError
   else mret tt);;
  modify (λ w, set_self (set_episode_rewards
    (episode_rewards (self w) ++
       completed (undiscounted_returns paths) (complete paths))
    (self w)) w);;
  modify (λ w, set_self (set_success_history
    (success_history (self w) ++
       completed (path_success_history paths) (complete paths))
    (self w)) w);;
  s ← gets self;
  let last_average_return := mean (episode_rewards s) in
  for_each (seq 0 (n_train_steps s)) (λ train_itr,
    s ← gets self;
    samples ← draw (buffer_sample (replay_buffer s) (buffer_batch_size s));
    record (Sampled (buffer_batch_size s) samples);;
    import_ipdb;; set_trace;;
    record (CallUpdateQ samples);;
    update_q_functions itr samples;;
    import_ipdb;; set_trace;;
    record (CallOptimizePolicy samples);;
    optimize_policy itr samples;;
    record CallAdjustTemperature;;
    adjust_temperature itr;;
    record CallUpdateTargets;;
    update_targets);;
  mret last_average_return.
End SAC.

(** ** Construction *)

Section Construction.
Context `{Framework}.

(** [copy.deepcopy(net)]: a new object with the contents of the old one. *)
Definition deepcopy (l : loc) (h : gmap loc module)
  : result (loc * gmap loc module) :=
  match h !! l with
  | None => Exn DanglingReference
  | Some m => let l' := fresh (dom h) in Val (l', <[l' := m]> h)
  end.

(** [optimizer(net.parameters(), lr=lr)] *)
Definition new_optimizer (l : loc) (lr : scalar) (h : gmap loc module)
  : result optimizer :=
  match h !! l with
  | None => Exn DanglingReference
  | Some m => Val {| opt_params := l;
                     opt_state := optimizer_init lr (parameters m) |}
  end.

(** [-np.prod(self.env_spec.action_space.shape).item()] *)
Definition default_target_entropy (action_shape : list nat) : scalar :=
  - Q2Qc (inject_Z (Z.of_nat (foldr Nat.mul 1%nat action_shape))).

(** [SAC.__init__]: the new trainer and the heap with the three target
    networks added.  The base-class constructor is handed
    [n_train_steps=1] and [n_epoch_cycles=1] and keeps its arguments as
    attributes of the same names. *)
Definition SAC_init (action_shape : list nat) (policy qf1 qf2 : loc)
    (alpha : scalar) (replay_buffer : buffer)
    (target_entropy : option scalar) (use_automatic_entropy_tuning : bool)
    (discount : scalar) (buffer_batch_size min_buffer_size : nat)
    (target_update_tau policy_lr qf_lr : scalar)
    (h : gmap loc module) : result (SAC * gmap loc module) :=
  result_bind (deepcopy policy h) (λ '(target_policy, h),
  result_bind (deepcopy qf1 h) (λ '(target_qf1, h),
  result_bind (deepcopy qf2 h) (λ '(target_qf2, h),
  result_bind (new_optimizer policy policy_lr h) (λ policy_optimizer,
  result_bind (new_optimizer qf1 qf_lr h) (λ qf1_optimizer,
  result_bind (new_optimizer qf2 qf_lr h) (λ qf2_optimizer,
  Val ({| policy := policy; qf1 := qf1; qf2 := qf2; alpha := alpha;
          replay_buffer := replay_buffer; tau := target_update_tau;
          policy_lr := policy_lr; qf_lr := qf_lr;
          n_train_steps := 1; n_epoch_cycles := 1;
          buffer_batch_size := buffer_batch_size;
          min_buffer_size := min_buffer_size; discount := discount;
          target_policy := target_policy; target_qf1 := target_qf1;
          target_qf2 := target_qf2;
          policy_optimizer := policy_optimizer;
          qf1_optimizer := qf1_optimizer;
          qf2_optimizer := qf2_optimizer;
          use_automatic_entropy_tuning := use_automatic_entropy_tuning;
          target_entropy :=
            if use_automatic_entropy_tuning then
              match target_entropy with
              | Some e => if decide (e = 0) then
                            Some (default_target_entropy action_shape)
                          else Some e
              | None => Some (default_target_entropy action_shape)
              end
            else None;
          episode_rewards := []; success_history := [] |}, h))))))).

(** The world right after construction. *)
Definition new_world (s : SAC) (h : gmap loc module) (r : rng_state)
    (ipdb : bool) : world :=
  {| heap := h; self := s; rng := r; log := []; ipdb_importable := ipdb |}.
End Construction.

(** ** Sequences of trainer operations *)

Section Runs.
Context `{Framework}.

(** One operation on the trainer: a call of one of its methods, or somebody
    else training the live policy in place (the trainer holds a reference
    to the caller's policy object, not a copy). *)
Inductive operation : Type :=
| TrainOnce (itr : nat) (paths : raw_paths)
| UpdateQFunctions (itr : nat) (samples : minibatch)
| OptimizePolicy (itr : nat) (samples : minibatch)
| AdjustTemperature (itr : nat)
| UpdateTargets
| WriteLivePolicy (θ : list tensor).

(** The world after one operation; an exception is caught by the caller
    and the world stays as the failed call left it. *)
Definition perform (op : operation) (w : world) : world :=
  match op with
  | TrainOnce itr paths => final (train_once itr paths w)
  | UpdateQFunctions itr samples => final (update_q_functions itr samples w)
  | OptimizePolicy itr samples => final (optimize_policy itr samples w)
  | AdjustTemperature itr => final (adjust_temperature itr w)
  | UpdateTargets => final (update_targets w)
  | WriteLivePolicy θ =>
      match heap w !! policy (self w) with
      | Some m =>
          set_heap (<[policy (self w) :=
                        {| parameters := θ; grad := grad m |}]> (heap w)) w
      | None => w
      end
  end.

Definition perform_all (ops : list operation) (w : world) : world :=
  foldl (λ w op, perform op w) w ops.
End Runs.

(** ** A small instance of the framework, to run the trainer on

    Observations and actions are one number per sample, a critic is the
    linear map [w * o + v * a] with parameters [[w; v]], the policy repeats
    the observation as its action, the optimizer is plain gradient descent
    and the generator state counts the draws. *)

Module Toy.
Definition linear (θ : list tensor) (o a : scalar) : scalar :=
  match θ with
  | [w; v] :: _ => w * o + v * a
  | _ => 0
  end.

Definition sgd (st : scalar * nat) (θ g : list tensor)
  : list tensor * (scalar * nat) :=
  (zip_with (zip_with (λ x d, x - fst st * d)) θ g, (fst st, S (snd st))).

#[export] Instance framework : Framework := {|
  obs_batch := list scalar;
  act_batch := list scalar;
  rng_state := nat;
  distribution := list scalar;
  buffer := nat;
  ostate := scalar * nat;
  raw_paths := list (scalar * bool);
  get_actions := λ θ obs r, (obs, S r);
  log_likelihood := λ θ obs act, map (λ _, - (1)) obs;
  policy_forward := λ θ obs, obs;
  rsample := λ d r, (d, S r);
  qf_forward := λ θ obs act, zip_with (linear θ) obs act;
  autograd := λ f θ, map (map (λ _, 1)) θ;
  optimizer_init := λ lr θ, (lr, 0%nat);
  optimizer_step := sgd;
  buffer_sample := λ b n r,
    ({| observation := replicate n 1; action := replicate n 1;
        reward := replicate n 1; next_observation := replicate n 1;
        done := replicate n false |}, S r);
  n_transitions_stored := λ b, b;
  process_samples := λ itr paths,
    {| undiscounted_returns := paths.*1; complete := paths.*2;
       path_success_history := paths.*1 |};
|}.

Definition net (w v : Z) : module :=
  {| parameters := [[Q2Qc (inject_Z w); Q2Qc (inject_Z v)]]; grad := None |}.

(** The caller's three networks: policy at 0, critics at 1 and 2. *)
Definition heap0 : gmap loc module :=
  <[2%nat := net 3 1]> (<[1%nat := net 2 1]> (<[0%nat := net 1 0]> ∅)).

(** The trainer built on them, with the entropy coefficient 1, the
    discount 1/2, batches of two samples, Polyak rate 1/2 and an empty
    replay buffer. *)
Definition built : result (SAC * gmap loc module) :=
  SAC_init [1%nat] 0%nat 1%nat 2%nat 1 0%nat None false one_half
           2%nat 100%nat one_half one_half one_half heap0.

(** What the constructor returns on them (see [Toy.built_eq]): the
    targets are the new objects 3, 4 and 5. *)
Definition heap1 : gmap loc module :=
  <[5%nat := net 3 1]> (<[4%nat := net 2 1]> (<[3%nat := net 1 0]> heap0)).

Definition trainer0 : SAC :=
  {| policy := 0%nat; qf1 := 1%nat; qf2 := 2%nat; alpha := 1;
     replay_buffer := 0%nat; tau := one_half;
     policy_lr := one_half; qf_lr := one_half;
     n_train_steps := 1; n_epoch_cycles := 1;
     buffer_batch_size := 2; min_buffer_size := 100;
     discount := one_half;
     target_policy := 3%nat; target_qf1 := 4%nat; target_qf2 := 5%nat;
     policy_optimizer := {| opt_params := 0%nat; opt_state := (one_half, 0%nat) |};
     qf1_optimizer := {| opt_params := 1%nat; opt_state := (one_half, 0%nat) |};
     qf2_optimizer := {| opt_params := 2%nat; opt_state := (one_half, 0%nat) |};
     use_automatic_entropy_tuning := false; target_entropy := None;
     episode_rewards := []; success_history := [] |}.

Definition world0 : world := new_world trainer0 heap1 0%nat true.

Definition samples0 : minibatch :=
  fst (buffer_sample 0%nat 2%nat 0%nat).

(** The world when [update_targets] would be reached: after the critic
    update and the actor update on one minibatch. *)
Definition world1 : world :=
  final (optimize_policy 0 samples0 (final (update_q_functions 0 samples0 world0))).

(** Sequences of operations on the trainer. *)
Definition no_paths : @raw_paths framework := [].

Definition one_path : @raw_paths framework := [(1, true)].

Definition calls : list (@operation framework) :=
  [TrainOnce 0%nat no_paths; TrainOnce 1%nat one_path;
   UpdateTargets; TrainOnce 2%nat no_paths].

Definition calls_and_writes : list (@operation framework) :=
  [TrainOnce 0%nat no_paths; WriteLivePolicy [[1 + 1; 1]];
   UpdateQFunctions 1%nat samples0; UpdateTargets].

(** A critic with two actions whose values are the observation's two
    entries, for the greedy policy. *)
Definition table_qf (q : unit) (obs : ndarray) : result ndarray :=
  Val {| shape := [1%nat; length (data obs)]; data := data obs |}.
End Toy.

(** ** Vocabulary of the statements *)

Section Vocabulary.
Context `{Framework}.

(** [wp m Φ Ψ w]: run from [w], [m] returns [a] in a world with [Φ a], or
    raises [e] in a world with [Ψ e]. *)
Definition wp {A} (m : M A) (Φ : A → world → Prop) (Ψ : exn → world → Prop)
    (w : world) : Prop :=
  match m w with
  | Ok a w' => Φ a w'
  | Raise e w' => Ψ e w'
  end.

(** The attributes that are set at construction and that no method
    assigns afterwards, the networks the optimizers are bound to among
    them. *)
Definition config (s : SAC) :=
  (policy s, qf1 s, qf2 s, alpha s, replay_buffer s, tau s,
   policy_lr s, qf_lr s, n_train_steps s, n_epoch_cycles s,
   buffer_batch_size s, min_buffer_size s, discount s,
   target_policy s, target_qf1 s, target_qf2 s,
   opt_params (policy_optimizer s), opt_params (qf1_optimizer s),
   opt_params (qf2_optimizer s),
   use_automatic_entropy_tuning s, target_entropy s).

(** [framed F L w0 w]: from [w0] to [w] the configuration and the
    debugger's availability are the same, every object outside [F] is
    untouched, and the events added to the log satisfy [L]. *)
Record framed (F : list loc) (L : list event → Prop) (w0 w : world)
  : Prop := {
  framed_config : config (self w) = config (self w0);
  framed_ipdb : ipdb_importable w = ipdb_importable w0;
  framed_heap : ∀ l, l ∉ F → heap w !! l = heap w0 !! l;
  framed_log : ∃ new, log w = log w0 ++ new ∧ L new;
}.

(** The parameters of every network are as in [w0]. *)
Definition same_parameters (w0 w : world) : Prop :=
  ∀ l, parameters <$> heap w !! l = parameters <$> heap w0 !! l.

(** The objects a trainer holds as the constructor leaves them: each
    optimizer is bound to its network, and the three live networks and the
    three targets are six different objects. *)
Definition well_formed (s : SAC) : Prop :=
  opt_params (policy_optimizer s) = policy s ∧
  opt_params (qf1_optimizer s) = qf1 s ∧
  opt_params (qf2_optimizer s) = qf2 s ∧
  NoDup [policy s; qf1 s; qf2 s;
         target_policy s; target_qf1 s; target_qf2 s].

(** The events of one round of [train_once] up to the call of the actor
    update, for a minibatch [b] of requested size [n]. *)
Definition train_trace (n : nat) (b : minibatch) : list event :=
  [Sampled n b; Breakpoint; CallUpdateQ b; Breakpoint; CallOptimizePolicy b].

(** What a failed [train_once] has added to the log: the first [k] events
    of one round, at least the sampling when the round was entered, and
    the first stop in the debugger too when [ipdb] can be imported. *)
Definition failed_round (s : SAC) (ipdb : bool) (new : list event) : Prop :=
  ∃ b k, new = take k (train_trace (buffer_batch_size s) b) ∧
         (n_epoch_cycles s ≠ 0%nat → (1 ≤ k)%nat) ∧
         (n_epoch_cycles s ≠ 0%nat → ipdb = true → (2 ≤ k)%nat).

(** The network objects that the critic update writes to, and those that
    any method of the trainer writes to. *)
Definition critic_footprint (s : SAC) : list loc :=
  [qf1 s; qf2 s;
   opt_params (qf1_optimizer s); opt_params (qf2_optimizer s)].

Definition footprint (s : SAC) : list loc :=
  [qf1 s; qf2 s; target_qf1 s; target_qf2 s;
   opt_params (policy_optimizer s);
   opt_params (qf1_optimizer s); opt_params (qf2_optimizer s)].

(** Two lists of parameter tensors of the same structure: as many
    tensors, each of the same size. *)
Definition same_structure (ts ps : list tensor) : Prop :=
  Forall2 (λ t p : tensor, length t = length p) ts ps.

(** The parameters of a target network after one synchronization with the
    live parameters [ps], tensor by tensor and element by element. *)
Definition synchronized (τ : scalar) (ts ps : list tensor) : list tensor :=
  zip_with (zip_with (λ t p, t * (1 - τ) + p * τ)) ts ps.

(** The regression target of one critic as [update_q_functions] builds it
    when all its operands have one entry per sample: [π] are the policy's
    parameters, [θ'] those of the critic's target, [r] the generator state
    from which the next action is drawn. *)
Definition bellman_of (s : SAC) (π θ' : list tensor) (samples : minibatch)
    (r : rng_state) : tensor :=
  let next_obs := next_observation samples in
  let next_actions := (get_actions π next_obs r).1 in
  let next_ll := log_likelihood π next_obs next_actions in
  zip_with Qcplus (reward samples)
    (scale (discount s)
       (zip_with Qcminus (qf_forward θ' next_obs next_actions)
          (scale (alpha s) next_ll))).

(** One gradient step of optimizer [o] on the loss [f] from the
    parameters [θ]: the network and the optimizer afterwards. *)
Definition gradient_step (o : optimizer) (θ : list tensor)
    (f : list tensor → result fscalar) : module * optimizer :=
  let g := autograd f θ in
  ({| parameters := (optimizer_step (opt_state o) θ g).1; grad := Some g |},
   {| opt_params := opt_params o;
      opt_state := (optimizer_step (opt_state o) θ g).2 |}).

(** The Polyak average of the specification. *)
Definition polyak_average (τ target live : scalar) : scalar :=
  (1 - τ) * target + τ * live.

(** [new] is the Polyak update of the target parameters [old] towards the
    live parameters [live]: same structure, every element the average of the
    two elements at its place, nothing changed at rate 0 and the live
    parameters taken over at rate 1. *)
Definition polyak_updated (τ : scalar) (old live new : list tensor) : Prop :=
  same_structure new old ∧
  (∀ j k T P t p,
     old !! j = Some T → T !! k = Some t →
     live !! j = Some P → P !! k = Some p →
     ∃ T', new !! j = Some T' ∧ T' !! k = Some (polyak_average τ t p)) ∧
  (τ = 0 → new = old) ∧
  (τ = 1 → new = live).

(** The soft Bellman target of the specification for one sample: reward
    [r], target critic value [q'] and log-likelihood [ll] of the next
    action. *)
Definition soft_bellman_target (γ α r q' ll : scalar) : scalar :=
  r + γ * (q' - α * ll).

(** [y] is the regression target of the specification for a minibatch with
    rewards [rewards], target critic values [q'] and log-likelihoods [ll] of
    the next actions: one entry per sample, each the soft Bellman target of
    that sample. *)
Definition is_soft_bellman_target (γ α : scalar) (rewards q' ll y : tensor)
  : Prop :=
  length y = length rewards ∧
  ∀ k r q l,
    rewards !! k = Some r → q' !! k = Some q → ll !! k = Some l →
    y !! k = Some (soft_bellman_target γ α r q l).

(** Half the mean squared error of the specification. *)
Definition half_mse (input target : tensor) : fscalar :=
  fscale one_half (mean (zip_with (λ x y, (x - y) * (x - y)) input target)).

(** A minibatch with other [done] flags. *)
Definition with_done (d : list bool) (b : minibatch) : minibatch :=
  {| observation := observation b; action := action b; reward := reward b;
     next_observation := next_observation b; done := d |}.
End Vocabulary.

(** ** Runs of several calls, and more inputs for the small instance *)

Section Repetition.
Context `{Framework}.


(** Calls of [train_once] one after the other, each on the world the one
    before left, an exception being caught by the caller. *)
Definition train_all (calls : list (nat * raw_paths)) (w : world) : world :=
  foldl (λ w c, final (train_once c.1 c.2 w)) w calls.

(** The objects [train_once] writes: the live critics and the networks the
    optimizers are bound to. *)
Definition live_footprint (s : SAC) : list loc :=
  [qf1 s; qf2 s; opt_params (policy_optimizer s);
   opt_params (qf1_optimizer s); opt_params (qf2_optimizer s)].

(** The two lists of episode statistics a trainer accumulates. *)
Definition statistics (s : SAC) : list scalar * list scalar :=
  (episode_rewards s, success_history s).

(** The trainer after the two [extend] calls of [train_once] on the
    processed paths [p]. *)
Definition extended (p : processed_paths) (s : SAC) : SAC :=
  set_success_history
    (success_history s ++ completed (path_success_history p) (complete p))
    (set_episode_rewards
       (episode_rewards s ++ completed (undiscounted_returns p) (complete p))
       s).

End Repetition.

Module Cases.
(** A Q-function that answers with two rows of two values: the rows
    [1, 2] and [5, 3] whatever the observation. *)
Definition two_rows (q : unit) (obs : ndarray) : result ndarray :=
  Val {| shape := [2%nat; 2%nat]; data := [1; 1 + 1; 1 + 1 + 1 + 1 + 1; 1 + 1 + 1] |}.

(** An observation of two entries. *)
Definition obs2 : ndarray := {| shape := [2%nat]; data := [1; 1 + 1] |}.

(** Two trajectories, the first one completed. *)
Definition two_paths : @raw_paths Toy.framework := [(1 + 1, true); (1, false)].

(** Two calls of [train_once], the second with the two trajectories. *)
Definition two_calls : list (nat * @raw_paths Toy.framework) :=
  [(0%nat, Toy.no_paths); (1%nat, two_paths)].

(** The freshly built trainer in an environment without [ipdb]. *)
Definition world_without_ipdb : world :=
  new_world Toy.trainer0 Toy.heap1 0%nat false.

(** A minibatch whose rewards have three entries while observations and
    actions have two. *)
Definition ragged : @batch (list scalar) (list scalar) :=
  {| observation := [1; 1]; action := [1; 1]; reward := [1; 1; 1];
     next_observation := [1; 1]; done := [false; false] |}.
End Cases.

(** * Properties *)

(** ** Tensor operations *)

Lemma NoDup_distinct {A} (l : list A) (i j : nat) (x y : A) :
  NoDup l → l !! i = Some x → l !! j = Some y → i ≠ j → x ≠ y.
Proof. intros Hnd Hi Hj Hij ->. by apply Hij, (NoDup_lookup l i j y). Qed.

Lemma broadcast2_same_length f (a b : tensor) :
  length a = length b → broadcast2 f a b = Val (zip_with f a b).
Proof. intros Hl. unfold broadcast2. by rewrite decide_True. Qed.

Lemma scale_lookup c (t : tensor) k :
  scale c t !! k = (λ x, c * x) <$> t !! k.
Proof. unfold scale. apply list_lookup_fmap. Qed.

Lemma scale_length c (t : tensor) : length (scale c t) = length t.
Proof. unfold scale. apply length_map. Qed.

Lemma scale_r_length c (t : tensor) : length (scale_r t c) = length t.
Proof. unfold scale_r. apply length_map. Qed.

Lemma mse_loss_same_length (a b : tensor) :
  length a = length b →
  mse_loss a b = Val (mean (zip_with (λ x y, (x - y) * (x - y)) a b)).
Proof.
  intros Hl. unfold mse_loss. by rewrite broadcast2_same_length.
Qed.

(** ** The greedy policy *)

Section ArgmaxProperties.
Context {qfunction : Type}.
Variable forward : qfunction → ndarray → result ndarray.

(** The scan keeps the first maximum of everything it has seen:
    [pre] is the part already seen, with its maximum [best] at [best_i]. *)
Lemma argmax_from_first_max (l pre : list scalar) best_i best :
  pre !! best_i = Some best →
  (∀ j q, pre !! j = Some q → q ≤ best) →
  (∀ j q, (j < best_i)%nat → pre !! j = Some q → q < best) →
  ∃ qa, (pre ++ l) !! argmax_from best_i best (length pre) l = Some qa ∧
        (∀ j q, (pre ++ l) !! j = Some q → q ≤ qa) ∧
        (∀ j q, (j < argmax_from best_i best (length pre) l)%nat →
                (pre ++ l) !! j = Some q → q < qa).
Proof.
  revert pre best_i best.
  induction l as [|x l IH]; intros pre best_i best Hbest Hmax Hfirst.
  - simpl. rewrite app_nil_r. eauto.
  - simpl. replace (pre ++ x :: l) with ((pre ++ [x]) ++ l)
      by (by rewrite <- app_assoc).
    replace (S (length pre)) with (length (pre ++ [x]))
      by (rewrite length_app; simpl; lia).
    destruct (decide (best < x)) as [Hlt|Hge].
    + apply IH.
      * by rewrite lookup_app_r, Nat.sub_diag.
      * intros j q Hj. apply lookup_app_Some in Hj as [Hj|[_ Hj]].
        -- apply Qclt_le_weak. eapply Qcle_lt_trans; [by eapply Hmax|done].
        -- apply list_lookup_singleton_Some in Hj as [_ <-]. apply Qcle_refl.
      * intros j q Hlt' Hj. rewrite lookup_app_l in Hj by done.
        eapply Qcle_lt_trans; [by eapply Hmax|done].
    + apply Qcnot_lt_le in Hge. apply IH.
      * apply lookup_app_l_Some. done.
      * intros j q Hj. apply lookup_app_Some in Hj as [Hj|[_ Hj]].
        -- by eapply Hmax.
        -- by apply list_lookup_singleton_Some in Hj as [_ <-].
      * intros j q Hlt' Hj.
        assert (best_i < length pre)%nat by (by eapply lookup_lt_Some).
        rewrite lookup_app_l in Hj by lia. by eapply Hfirst.
Qed.

Lemma argmax_first_max (a : ndarray) :
  data a ≠ [] →
  ∃ i qi, argmax a = Val i ∧ data a !! i = Some qi ∧
          (∀ j q, data a !! j = Some q → q ≤ qi) ∧
          (∀ j q, (j < i)%nat → data a !! j = Some q → q < qi).
Proof.
  intros Hne. unfold argmax. destruct (data a) as [|x l]; [done|].
  destruct (argmax_from_first_max l [x] 0 x) as (qa & H1 & H2 & H3).
  - done.
  - intros j q Hj. apply list_lookup_singleton_Some in Hj as [_ <-].
    apply Qcle_refl.
  - intros j q Hlt. lia.
  - exists (argmax_from 0 x 1 l), qa. simpl in *. done.
Qed.

(** [get_action] writes nothing to the policy object. *)
Lemma get_action_stateless (self : ArgmaxDiscretePolicy) obs :
  snd (get_action forward self obs) = self.
Proof. reflexivity. Qed.

(** C9.  For a single observation [obs], the Q-function is evaluated once,
    on [obs] with a leading dimension of size one.  When it answers with
    one row of [n ≥ 1] action values, [get_action] drops the leading
    dimension and returns the index of the largest value (the first one
    among equals) together with the empty info mapping.  The call leaves
    the policy object as it was, and a second call on the same observation
    returns the same action. *)
Theorem get_action_greedy (self : ArgmaxDiscretePolicy) (obs out : ndarray)
    (n : nat) :
  forward (qf self) {| shape := 1%nat :: shape obs; data := data obs |}
    = Val out →
  shape out = [1%nat; n] →
  length (data out) = n →
  (0 < n)%nat →
  ∃ a qa,
    get_action forward self obs = (Val (a, ∅), self) ∧
    shape (squeeze0 out) = [n] ∧
    data (squeeze0 out) !! a = Some qa ∧
    (a < n)%nat ∧
    (∀ j q, data out !! j = Some q → q ≤ qa) ∧
    (∀ j q, (j < a)%nat → data out !! j = Some q → q < qa) ∧
    fst (get_action forward (snd (get_action forward self obs)) obs)
      = fst (get_action forward self obs).
Proof.
  intros Hfw Hshape Hlen Hn.
  assert (Hsq : squeeze0 out = {| shape := [n]; data := data out |}).
  { unfold squeeze0. by rewrite Hshape. }
  destruct (argmax_first_max (squeeze0 out)) as (i & qi & Ha & Hi & Hmax & Hfirst).
  { rewrite Hsq. simpl. intros Hnil. rewrite Hnil in Hlen. simpl in Hlen. lia. }
  exists i, qi. rewrite Hsq in Hi, Hmax, Hfirst. simpl in Hi, Hmax, Hfirst.
  split_and!.
  - unfold get_action, expand_dims0, from_numpy_float, get_numpy.
    rewrite Hfw. simpl. rewrite Ha. done.
  - by rewrite Hsq.
  - by rewrite Hsq.
  - rewrite <- Hlen. by eapply lookup_lt_Some.
  - done.
  - done.
  - done.
Qed.
End ArgmaxProperties.

Lemma get_action_greedy_witness :
  ∃ a qa,
    get_action Toy.table_qf {| qf := tt |}
      {| shape := [2%nat]; data := [1; 1 + 1] |} = (Val (a, ∅), {| qf := tt |}) ∧
    a = 1%nat ∧ qa = 1 + 1.
Proof.
  destruct (get_action_greedy Toy.table_qf {| qf := tt |}
              {| shape := [2%nat]; data := [1; 1 + 1] |}
              {| shape := [1%nat; 2%nat]; data := [1; 1 + 1] |} 2)
    as (a & qa & Hrun & _ & Hqa & _ & _ & _ & _).
  - reflexivity.
  - reflexivity.
  - reflexivity.
  - lia.
  - exists a, qa. split; [exact Hrun|].
    injection Hrun as Ha. rewrite <- Ha in Hqa.
    split; [symmetry; exact Ha|]. injection Hqa as Hq. symmetry. exact Hq.
Defined.

(** ** Reasoning about the trainer's monad *)

Section WeakestPrecondition.
Context `{Framework}.

Lemma wp_ret {A} (a : A) Φ Ψ w : Φ a w → wp (mret a) Φ Ψ w.
Proof. done. Qed.

Lemma wp_bind {A B} (m : M A) (k : A → M B) Φ Ψ w :
  wp m (λ a w', wp (k a) Φ Ψ w') Ψ w → wp (m ≫= k) Φ Ψ w.
Proof.
  unfold wp, mbind, M_bind, bind. by destruct (m w).
Qed.

Lemma wp_raise {A} e (Φ : A → world → Prop) Ψ w :
  Ψ e w → wp (raise e) Φ Ψ w.
Proof. done. Qed.

Lemma wp_gets {A} (f : world → A) Φ Ψ w : Φ (f w) w → wp (gets f) Φ Ψ w.
Proof. done. Qed.

Lemma wp_modify f Φ Ψ w : Φ tt (f w) → wp (modify f) Φ Ψ w.
Proof. done. Qed.

Lemma wp_lift {A} (r : result A) Φ Ψ w :
  match r with Val a => Φ a w | Exn e => Ψ e w end → wp (lift r) Φ Ψ w.
Proof. by destruct r. Qed.

Lemma wp_deref l Φ Ψ w :
  match heap w !! l with
  | Some m => Φ m w
  | None => Ψ DanglingReference w
  end → wp (deref l) Φ Ψ w.
Proof. unfold wp, deref. by destruct (heap w !! l). Qed.

Lemma wp_get_parameters l Φ Ψ w :
  match heap w !! l with
  | Some m => Φ (parameters m) w
  | None => Ψ DanglingReference w
  end → wp (get_parameters l) Φ Ψ w.
Proof.
  intros Hm. apply wp_bind, wp_deref. by destruct (heap w !! l).
Qed.

Lemma wp_store l m Φ Ψ w :
  Φ tt (set_heap (<[l := m]> (heap w)) w) → wp (store l m) Φ Ψ w.
Proof. done. Qed.

Lemma wp_record e Φ Ψ w :
  Φ tt (set_log (log w ++ [e]) w) → wp (record e) Φ Ψ w.
Proof. done. Qed.

Lemma wp_draw {A} (f : rng_state → A * rng_state) Φ Ψ w :
  Φ (f (rng w)).1 (set_rng (f (rng w)).2 w) → wp (draw f) Φ Ψ w.
Proof. unfold wp, draw. by destruct (f (rng w)). Qed.

Lemma wp_mono {A} (m : M A) (Φ Φ' : A → world → Prop) (Ψ Ψ' : exn → world → Prop) w :
  wp m Φ Ψ w →
  (∀ a w', Φ a w' → Φ' a w') → (∀ e w', Ψ e w' → Ψ' e w') →
  wp m Φ' Ψ' w.
Proof. unfold wp. destruct (m w); eauto. Qed.

(** A loop keeps what each of its rounds keeps. *)
Lemma wp_for_each {A} (I : world → Prop) (Ψ : exn → world → Prop)
    (l : list A) (body : A → M unit) w :
  I w →
  (∀ x w, x ∈ l → I w → wp (body x) (λ _, I) Ψ w) →
  wp (for_each l body) (λ _, I) Ψ w.
Proof.
  revert w. induction l as [|x l IH]; intros w HI Hbody; simpl.
  - by apply wp_ret.
  - apply wp_bind. eapply wp_mono.
    + apply Hbody; [left|done].
    + intros [] w' HI'. apply IH; [done|].
      intros y w'' Hy. apply Hbody. by right.
    + done.
Qed.

End WeakestPrecondition.

(** One step of symbolic execution, chosen by the head of the program. *)
Ltac wp_step :=
  cbv beta iota zeta;
  lazymatch goal with
  | |- wp (mbind _ _) _ _ _ => apply wp_bind
  | |- wp (mret _) _ _ _ => apply wp_ret
  | |- wp (raise _) _ _ _ => apply wp_raise
  | |- wp (gets _) _ _ _ => apply wp_gets
  | |- wp (modify _) _ _ _ => apply wp_modify
  | |- wp (get_parameters _) _ _ _ => apply wp_get_parameters
  | |- wp (deref _) _ _ _ => apply wp_deref
  | |- wp (store _ _) _ _ _ => apply wp_store
  | |- wp (record _) _ _ _ => apply wp_record
  | |- wp (draw _) _ _ _ => apply wp_draw
  | |- wp (lift _) _ _ _ => apply wp_lift
  end;
  cbv beta zeta.

(** Symbolic execution up to the next lookup or test that needs a fact. *)
Ltac wp_unfold :=
  lazymatch goal with
  | |- wp (zero_grad _) _ _ _ => unfold zero_grad
  | |- wp (step _) _ _ _ => unfold step
  | |- wp (backward _) _ _ _ => unfold backward; simpl grad_fn
  | |- wp (call_method _ _) _ _ _ => unfold call_method, tensor_getattr
  | |- wp (copy_parameter _ _ _) _ _ _ => unfold copy_parameter
  | |- wp (for_each (_ :: _) _) _ _ _ => simpl for_each
  | |- wp (for_each [] _) _ _ _ => simpl for_each
  end.

Ltac wp_run := repeat (wp_step || wp_unfold).

(** Membership in a list that is written out. *)
Ltac in_list := by repeat constructor.

(** Reading attributes back from updated worlds and trainers. *)
Ltac world_simpl :=
  cbn [heap self rng log ipdb_importable
       set_heap set_self set_rng set_log
       get_optimizer set_optimizer with_mutable
       set_episode_rewards set_success_history
       policy qf1 qf2 alpha replay_buffer tau policy_lr qf_lr
       n_train_steps n_epoch_cycles buffer_batch_size min_buffer_size
       discount target_policy target_qf1 target_qf2
       policy_optimizer qf1_optimizer qf2_optimizer
       use_automatic_entropy_tuning target_entropy
       episode_rewards success_history
       parameters grad opt_params opt_state accumulate
       loss_value grad_fn fst snd].

(** Symbolic execution that keeps the world a flat record. *)
Ltac world_flat := unfold set_heap, set_self, set_rng, set_log; world_simpl.

Ltac wp_run_flat := repeat ((wp_step || wp_unfold); world_flat).

(** ** What the methods leave untouched *)

Section Frames.
Context `{Framework}.
Implicit Types (w : world) (s : SAC) (F : list loc).

Lemma config_set_optimizer o st s :
  config (set_optimizer o
            {| opt_params := opt_params (get_optimizer o s); opt_state := st |}
            s) = config s.
Proof. by destruct o. Qed.

Lemma config_set_episode_rewards er s :
  config (set_episode_rewards er s) = config s.
Proof. done. Qed.

Lemma config_set_success_history sh s :
  config (set_success_history sh s) = config s.
Proof. done. Qed.

Lemma framed_refl F (L : list event → Prop) w : L [] → framed F L w w.
Proof.
  intros HL. split; try done. exists []. by rewrite app_nil_r.
Qed.

Lemma framed_store F L w0 w l m :
  framed F L w0 w → l ∈ F → framed F L w0 (set_heap (<[l := m]> (heap w)) w).
Proof.
  intros [Hc Hi Hh Hl] Hin. split; simpl; try done.
  intros l' Hl'. rewrite lookup_insert_ne; [by apply Hh|].
  intros ->. done.
Qed.

Lemma framed_set_rng F L w0 w r :
  framed F L w0 w → framed F L w0 (set_rng r w).
Proof. by intros [Hc Hi Hh Hl]. Qed.

Lemma framed_set_self F L w0 w s :
  framed F L w0 w → config s = config (self w) → framed F L w0 (set_self s w).
Proof.
  intros [Hc Hi Hh Hl] Hs. split; simpl; try done. by rewrite Hs.
Qed.

Lemma framed_weaken F F' (L L' : list event → Prop) w0 w :
  framed F L w0 w → F ⊆ F' → (∀ new, L new → L' new) → framed F' L' w0 w.
Proof.
  intros [Hc Hi Hh (new & Hl & HL)] HF HLL. split; try done.
  - intros l Hl'. apply Hh. intros Hin. by apply Hl', HF.
  - exists new. eauto.
Qed.

Lemma framed_trans F (L : list event → Prop) w0 w1 w2 :
  (∀ a b, L a → L b → L (a ++ b)) →
  framed F L w0 w1 → framed F L w1 w2 → framed F L w0 w2.
Proof.
  intros HL [Hc Hi Hh (new & Hl & Hn)] [Hc' Hi' Hh' (new' & Hl' & Hn')].
  split.
  - by rewrite Hc'.
  - by rewrite Hi'.
  - intros l Hl0. rewrite Hh' by done. by apply Hh.
  - exists (new ++ new'). split; [|by apply HL].
    by rewrite Hl', Hl, <- app_assoc.
Qed.

(** Projections of an equality of configurations. *)
Lemma config_eq_inv s s' :
  config s = config s' →
  qf1 s = qf1 s' ∧ qf2 s = qf2 s' ∧
  target_qf1 s = target_qf1 s' ∧ target_qf2 s = target_qf2 s' ∧
  opt_params (policy_optimizer s) = opt_params (policy_optimizer s') ∧
  opt_params (qf1_optimizer s) = opt_params (qf1_optimizer s') ∧
  opt_params (qf2_optimizer s) = opt_params (qf2_optimizer s') ∧
  policy s = policy s' ∧ target_policy s = target_policy s' ∧
  alpha s = alpha s' ∧ n_train_steps s = n_train_steps s' ∧
  n_epoch_cycles s = n_epoch_cycles s' ∧
  buffer_batch_size s = buffer_batch_size s'.
Proof. unfold config. intros [= ]. done. Qed.

Section Invariant.
(** The invariant of this section is [framed F L w0]: framed from a
    fixed [w0], for a footprint [F] and a log condition [L]. *)
Variables (F : list loc) (L : list event → Prop) (w0 : world).

Lemma zero_grad_framed o w :
  framed F L w0 w → opt_params (get_optimizer o (self w0)) ∈ F →
  wp (zero_grad o) (λ _, framed F L w0) (λ _, framed F L w0) w.
Proof.
  intros HI Hin. unfold zero_grad.
  assert (opt_params (get_optimizer o (self w)) ∈ F) as Hin'.
  { destruct (config_eq_inv _ _ (framed_config _ _ _ _ HI))
      as (_ & _ & _ & _ & Hp & H1 & H2 & _).
    destruct o; simpl in *; congruence. }
  do 4 wp_step. destruct (heap w !! _); [|done].
  wp_step. by apply framed_store.
Qed.

Lemma backward_framed (t : loss) w :
  framed F L w0 w → (∀ leaf f, grad_fn t = Some (leaf, f) → leaf ∈ F) →
  wp (backward t) (λ _, framed F L w0) (λ _, framed F L w0) w.
Proof.
  intros HI Hin. unfold backward.
  destruct (grad_fn t) as [[leaf f]|]; [|by apply wp_raise].
  do 2 wp_step. destruct (heap w !! leaf); [|done].
  wp_step. apply framed_store; eauto.
Qed.

Lemma call_method_framed (t : loss) name w :
  framed F L w0 w → (∀ leaf f, grad_fn t = Some (leaf, f) → leaf ∈ F) →
  wp (call_method t name) (λ _, framed F L w0) (λ _, framed F L w0) w.
Proof.
  intros HI Hin. unfold call_method, tensor_getattr.
  case_decide; [by apply backward_framed|by apply wp_raise].
Qed.

Lemma step_framed o w :
  framed F L w0 w → opt_params (get_optimizer o (self w0)) ∈ F →
  wp (step o) (λ _, framed F L w0) (λ _, framed F L w0) w.
Proof.
  intros HI Hin. unfold step.
  assert (opt_params (get_optimizer o (self w)) ∈ F) as Hin'.
  { destruct (config_eq_inv _ _ (framed_config _ _ _ _ HI))
      as (_ & _ & _ & _ & Hp & H1 & H2 & _).
    destruct o; simpl in *; congruence. }
  do 4 wp_step. destruct (heap w !! _) as [m|]; [|done].
  destruct (grad m) as [g|]; [|by apply wp_ret].
  destruct (optimizer_step _ _ _) as [θ st].
  do 3 wp_step.
  apply framed_set_self; [by apply framed_store|].
  simpl. apply config_set_optimizer.
Qed.

(** Running a sub-call that keeps the invariant and going on with the rest. *)
Lemma wp_seq_framed {A B} (m : M A) (k : A → M B) w :
  wp m (λ _, framed F L w0) (λ _, framed F L w0) w →
  (∀ a w', framed F L w0 w' → wp (k a) (λ _, framed F L w0) (λ _, framed F L w0) w') →
  wp (m ≫= k) (λ _, framed F L w0) (λ _, framed F L w0) w.
Proof.
  intros Hm Hk. apply wp_bind. eapply wp_mono; [exact Hm| |done].
  intros a w' HI. by apply Hk.
Qed.

Lemma update_q_functions_framed itr samples w :
  framed F L w0 w →
  qf1 (self w0) ∈ F → qf2 (self w0) ∈ F →
  opt_params (qf1_optimizer (self w0)) ∈ F →
  opt_params (qf2_optimizer (self w0)) ∈ F →
  wp (update_q_functions itr samples) (λ _, framed F L w0) (λ _, framed F L w0) w.
Proof.
  intros HI Hq1 Hq2 Ho1 Ho2. unfold update_q_functions.
  destruct (config_eq_inv _ _ (framed_config _ _ _ _ HI))
    as (E1 & E2 & _).
  do 4 wp_step. destruct (heap w !! policy (self w)); [|done].
  do 2 wp_step.
  apply wp_for_each; [by apply framed_set_rng|].
  intros [target_qf [qf qf_optimizer]] w' Hx HI'.
  assert (qf ∈ F ∧ opt_params (get_optimizer qf_optimizer (self w0)) ∈ F)
    as [Hqf Hopt].
  { simpl in Hx. rewrite E1, E2 in Hx.
    apply elem_of_cons in Hx as [[= _ -> ->]|Hx]; [done|].
    apply elem_of_cons in Hx as [[= _ -> ->]|Hx]; [done|].
    by apply elem_of_nil in Hx. }
  do 2 wp_step. destruct (heap w' !! qf); [|done].
  do 2 wp_step. destruct (heap w' !! target_qf); [|done].
  do 4 wp_step. destruct (broadcast2 _ _ _); [|done].
  do 2 wp_step. destruct (broadcast2 _ _ _); [|done].
  do 2 wp_step. destruct (result_bind _ _); [|done].
  apply wp_seq_framed; [by apply zero_grad_framed|].
  intros _ w1 HI1. apply wp_seq_framed.
  { apply call_method_framed; [done|]. by intros leaf f [= <- _]. }
  intros _ w2 HI2. by apply step_framed.
Qed.

Lemma optimize_policy_framed itr samples w :
  framed F L w0 w →
  opt_params (policy_optimizer (self w0)) ∈ F →
  wp (optimize_policy itr samples) (λ _, framed F L w0) (λ _, framed F L w0) w.
Proof.
  intros HI Ho. unfold optimize_policy.
  do 4 wp_step. destruct (heap w !! policy (self w)); [|done].
  do 2 wp_step. simpl.
  do 2 wp_step. simpl. destruct (heap w !! qf1 (self w)); [|by apply framed_set_rng].
  do 2 wp_step. simpl. destruct (heap w !! qf2 (self w)); [|by apply framed_set_rng].
  do 2 wp_step. destruct (broadcast2 _ _ _); [|by apply framed_set_rng].
  do 2 wp_step. destruct (broadcast2 _ _ _); [|by apply framed_set_rng].
  apply wp_seq_framed.
  { apply zero_grad_framed; [by apply framed_set_rng|done]. }
  intros _ w1 HI1. apply wp_seq_framed.
  { by apply call_method_framed. }
  intros _ w2 HI2. by apply step_framed.
Qed.

Lemma adjust_temperature_framed itr w :
  framed F L w0 w → wp (adjust_temperature itr) (λ _, framed F L w0) (λ _, framed F L w0) w.
Proof. done. Qed.

Lemma copy_parameter_framed l j src w :
  framed F L w0 w → l ∈ F → wp (copy_parameter l j src) (λ _, framed F L w0) (λ _, framed F L w0) w.
Proof.
  intros HI Hl. unfold copy_parameter.
  do 2 wp_step. destruct (heap w !! l) as [m|]; [|done].
  destruct (parameters m !! j); [|by apply wp_ret].
  do 2 wp_step. destruct (copy_ _ _); [|done].
  wp_step. by apply framed_store.
Qed.

Lemma update_targets_framed w :
  framed F L w0 w →
  target_qf1 (self w0) ∈ F → target_qf2 (self w0) ∈ F →
  wp update_targets (λ _, framed F L w0) (λ _, framed F L w0) w.
Proof.
  intros HI Ht1 Ht2. unfold update_targets.
  destruct (config_eq_inv _ _ (framed_config _ _ _ _ HI))
    as (_ & _ & E1 & E2 & _).
  do 2 wp_step.
  apply wp_for_each; [done|].
  intros [target_qf qf] w' Hx HI'.
  assert (target_qf ∈ F) as Htq.
  { simpl in Hx. rewrite E1, E2 in Hx.
    apply elem_of_cons in Hx as [[= -> _]|Hx]; [done|].
    apply elem_of_cons in Hx as [[= -> _]|Hx]; [done|].
    by apply elem_of_nil in Hx. }
  do 2 wp_step. destruct (heap w' !! target_qf); [|done].
  do 2 wp_step. destruct (heap w' !! qf); [|done].
  apply wp_for_each; [done|].
  intros [j [t_param param]] w'' _ HI''.
  do 4 wp_step. destruct (polyak _ _ _); [|done].
  by apply copy_parameter_framed.
Qed.
End Invariant.

Lemma wp_import_ipdb Φ Ψ w :
  (if ipdb_importable w then Φ tt w else Ψ (ModuleNotFoundError "ipdb") w) →
  wp import_ipdb Φ Ψ w.
Proof. unfold wp, import_ipdb. by destruct (ipdb_importable w). Qed.

Lemma call_method_backwards (t : loss) w :
  call_method t "backwards" w = Raise (AttributeError "backwards") w.
Proof. reflexivity. Qed.

(** The actor update cannot return: it stops at the latest at the call of
    the attribute [backwards], which a tensor does not have. *)
Lemma optimize_policy_raises F L w0 itr samples w :
  framed F L w0 w →
  opt_params (policy_optimizer (self w0)) ∈ F →
  wp (optimize_policy itr samples) (λ _ _, False) (λ _, framed F L w0) w.
Proof.
  intros HI Ho. unfold optimize_policy.
  do 4 wp_step. destruct (heap w !! policy (self w)); [|done].
  do 2 wp_step. simpl.
  do 2 wp_step. simpl.
  destruct (heap w !! qf1 (self w)); [|by apply framed_set_rng].
  do 2 wp_step. simpl.
  destruct (heap w !! qf2 (self w)); [|by apply framed_set_rng].
  do 2 wp_step. destruct (broadcast2 _ _ _); [|by apply framed_set_rng].
  do 2 wp_step. destruct (broadcast2 _ _ _); [|by apply framed_set_rng].
  wp_step. eapply wp_mono.
  - apply zero_grad_framed; [by apply framed_set_rng|done].
  - intros [] w1 HI1. simpl. wp_step.
    unfold wp. by rewrite call_method_backwards.
  - done.
Qed.

(** A loop whose rounds cannot return returns only when it has no round. *)
Lemma wp_for_each_raises {A} (I : world → Prop) Ψ (l : list A)
    (body : A → M unit) w :
  I w →
  (∀ x w, I w → wp (body x) (λ _ _, False) Ψ w) →
  wp (for_each l body) (λ _ w', l = [] ∧ I w') Ψ w.
Proof.
  intros HI Hbody. destruct l as [|x l]; simpl.
  - by apply wp_ret.
  - apply wp_bind. eapply wp_mono; [by apply Hbody|done|done].
Qed.

Lemma framed_record_exact F w0 w (l : list event) e :
  framed F (λ new, new = l) w0 w →
  framed F (λ new, new = l ++ [e]) w0 (set_log (log w ++ [e]) w).
Proof.
  intros [Hc Hi Hh (new & Hl & Hnew)]. split; simpl; try done.
  exists (new ++ [e]). rewrite Hl, <- app_assoc. by rewrite Hnew.
Qed.

(** [train_once] from [w0].  Whatever happens, the configuration stays and
    only objects of the footprint are written.  The call returns only when
    it has no training step to run, and then logs nothing; otherwise it
    raises, after a prefix of one round that stops at the latest at the
    call of the actor update. *)
Lemma train_once_outcome itr paths w0 :
  wp (train_once itr paths)
     (λ _ w, n_train_steps (self w0) = 0%nat ∧
             framed (footprint (self w0)) (λ new, new = []) w0 w)
     (λ _, framed (footprint (self w0))
             (failed_round (self w0) (ipdb_importable w0)) w0)
     w0.
Proof.
  set (F := footprint (self w0)).
  set (Ψ := framed F (failed_round (self w0) (ipdb_importable w0)) w0).
  unfold train_once.
  do 3 wp_step. case_decide as Hcycles.
  { apply wp_raise, framed_refl. exists (buffer_sample (replay_buffer (self w0)) 0 (rng w0)).1, 0%nat.
    split; [done|]. split; intros; done. }
  do 5 wp_step.
  set (w1 := set_self _ (set_self _ w0)).
  assert (framed F (λ new, new = []) w0 w1) as HI1.
  { apply framed_set_self; [apply framed_set_self|]; try done.
    by apply framed_refl. }
  do 3 wp_step. eapply wp_mono.
  - apply (wp_for_each_raises (framed F (λ new, new = []) w0) (λ _, Ψ));
      [done|].
    intros train_itr w HI.
    destruct (config_eq_inv _ _ (framed_config _ _ _ _ HI))
      as (_ & _ & _ & _ & _ & _ & _ & _ & _ & _ & _ & _ & Hsize).
    do 4 wp_step. rewrite Hsize.
    set (n := buffer_batch_size (self w0)).
    set (b := (buffer_sample _ _ _).1).
    set (w2 := set_rng _ w).
    assert (framed F (λ new, new = []) w0 w2) as HI2
      by (by apply framed_set_rng).
    assert (∀ k w', (1 ≤ k)%nat →
              (ipdb_importable w0 = true → (2 ≤ k)%nat) →
              framed F (λ new, new = take k (train_trace n b)) w0 w' → Ψ w')
      as Hraise.
    { intros k w' Hk1 Hk2 Hw'. eapply framed_weaken; [exact Hw'|done|].
      intros new ->. exists b, k. eauto. }
    unfold set_trace. do 2 wp_step. apply wp_bind, wp_import_ipdb.
    pose proof (framed_record_exact _ _ _ _ (Sampled n b) HI2) as HI3.
    rewrite (framed_ipdb _ _ _ _ HI3).
    destruct (ipdb_importable w0) eqn:Hipdb.
    2:{ apply (Hraise 1%nat); [lia|done|done]. }
    do 4 wp_step.
    pose proof (framed_record_exact _ _ _ _ Breakpoint HI3) as HI4.
    pose proof (framed_record_exact _ _ _ _ (CallUpdateQ b) HI4) as HI5.
    apply wp_bind. eapply wp_mono.
    { apply update_q_functions_framed; [exact HI5|..];
        unfold F, footprint; set_solver. }
    2:{ intros e w' Hw'. apply (Hraise 3%nat); [lia|lia|done]. }
    intros [] w6 HI6. simpl.
    apply wp_bind, wp_import_ipdb.
    rewrite (framed_ipdb _ _ _ _ HI6), Hipdb.
    do 4 wp_step.
    pose proof (framed_record_exact _ _ _ _ Breakpoint HI6) as HI7.
    pose proof (framed_record_exact _ _ _ _ (CallOptimizePolicy b) HI7) as HI8.
    wp_step. eapply wp_mono.
    { apply optimize_policy_raises; [exact HI8|].
      unfold F, footprint; set_solver. }
    + done.
    + intros e w' Hw'. apply (Hraise 5%nat); [lia|lia|done].
  - intros [] w [Hl HI]. simpl. wp_step. split; [|done].
    apply (f_equal length) in Hl. rewrite length_seq in Hl. simpl in Hl.
    destruct (config_eq_inv _ _ (framed_config _ _ _ _ HI1))
      as (_ & _ & _ & _ & _ & _ & _ & _ & _ & _ & Hn & _).
    by rewrite <- Hn.
  - done.
Qed.
End Frames.

(** ** Target synchronization *)

Section TargetSynchronization.
Context `{Framework}.

Lemma set_heap_id (w : world) l m :
  heap w !! l = Some m → set_heap (<[l := m]> (heap w)) w = w.
Proof. intros Hl. destruct w. unfold set_heap. simpl in *. by rewrite insert_id. Qed.

Lemma polyak_same_length τ (t p : tensor) :
  length t = length p →
  polyak τ t p = Val (zip_with (λ x y, x * (1 - τ) + y * τ) t p).
Proof.
  intros Hl. unfold polyak.
  rewrite broadcast2_same_length
    by (by rewrite !scale_r_length).
  f_equal. unfold scale_r. clear Hl. revert p.
  induction t as [|x t IH]; intros [|y p]; simpl; try done.
  by rewrite IH.
Qed.

Lemma copy__same_length (dst src : tensor) :
  length src = length dst → copy_ dst src = Val src.
Proof. intros Hl. unfold copy_. by rewrite decide_True. Qed.

(** The inner loop of [update_targets] on one network [tq], started when
    the first tensors [done_] are already averaged. *)
Lemma polyak_loop (tq : loc) (rest_t rest_p : list tensor) :
  same_structure rest_t rest_p →
  ∀ (done_ : list tensor) (w : world) (m : module)
    (Φ : unit → world → Prop) Ψ,
  heap w !! tq = Some m →
  parameters m = done_ ++ rest_t →
  Φ tt (set_heap
          (<[tq := {| parameters :=
                        done_ ++ synchronized (tau (self w)) rest_t rest_p;
                      grad := grad m |}]> (heap w)) w) →
  wp (for_each (zip (seq (length done_) (length rest_t)) (zip rest_t rest_p))
        (λ '(j, (t_param, param)),
           s ← gets self;
           new ← lift (polyak (tau s) t_param param);
           copy_parameter tq j new))
     Φ Ψ w.
Proof.
  induction 1 as [|t p ts ps Hl Hrest IH]; intros done_ w m Φ Ψ Hm Hpar HΦ.
  - simpl. wp_step. unfold synchronized in HΦ. simpl in HΦ.
    rewrite <- Hpar in HΦ.
    replace {| parameters := parameters m; grad := grad m |} with m in HΦ
      by (by destruct m).
    by rewrite (set_heap_id _ _ _ Hm) in HΦ.
  - simpl. do 4 wp_step. rewrite polyak_same_length by done.
    unfold copy_parameter. do 3 wp_step. rewrite Hm, Hpar.
    rewrite list_lookup_middle by done.
    do 2 wp_step.
    rewrite copy__same_length by (by rewrite length_zip_with; lia).
    wp_step.
    set (new := zip_with _ t p).
    set (m' := {| parameters := <[length done_ := new]> (done_ ++ t :: ts);
                  grad := grad m |}).
    set (w' := set_heap (<[tq := m']> (heap w)) w).
    replace (S (length done_)) with (length (done_ ++ [new]))
      by (rewrite length_app; simpl; lia).
    apply (IH (done_ ++ [new]) w' m').
    + unfold w'. simpl. apply lookup_insert_eq.
    + unfold m'. simpl.
      replace (length done_) with (length done_ + 0)%nat by lia.
      rewrite insert_app_r. simpl. by rewrite <- app_assoc.
    + unfold w', m'. simpl. rewrite insert_insert_eq.
      unfold synchronized in *. simpl in HΦ.
      by rewrite <- app_assoc.
Qed.

(** [update_targets] when the targets have the structure of the live
    critics: both targets are replaced by their averages with the live
    critics, and nothing else in the world changes. *)
Lemma update_targets_run (w : world) (mt1 mt2 m1 m2 : module) :
  well_formed (self w) →
  heap w !! target_qf1 (self w) = Some mt1 →
  heap w !! target_qf2 (self w) = Some mt2 →
  heap w !! qf1 (self w) = Some m1 →
  heap w !! qf2 (self w) = Some m2 →
  same_structure (parameters mt1) (parameters m1) →
  same_structure (parameters mt2) (parameters m2) →
  update_targets w =
    Ok tt (set_heap
             (<[target_qf2 (self w) :=
                  {| parameters := synchronized (tau (self w))
                                     (parameters mt2) (parameters m2);
                     grad := grad mt2 |}]>
                (<[target_qf1 (self w) :=
                     {| parameters := synchronized (tau (self w))
                                        (parameters mt1) (parameters m1);
                        grad := grad mt1 |}]> (heap w))) w).
Proof.
  intros (_ & _ & _ & Hnd) Ht1 Ht2 Hq1 Hq2 Hs1 Hs2.
  assert (target_qf1 (self w) ≠ target_qf2 (self w) ∧
          target_qf1 (self w) ≠ qf2 (self w)) as [Hne1 Hne2].
  { split; [apply (NoDup_distinct _ 4 5 _ _ Hnd)|
             apply (NoDup_distinct _ 4 2 _ _ Hnd)]; done. }
  set (X := set_heap _ w).
  enough (wp update_targets (λ _ w', w' = X) (λ _ _, False) w) as Hwp.
  { unfold wp in Hwp. destruct (update_targets w) as [[] w'|]; [|done].
    by rewrite Hwp. }
  unfold update_targets. do 2 wp_step. simpl.
  do 3 wp_step. rewrite Ht1. do 2 wp_step. rewrite Hq1.
  apply (polyak_loop _ _ _ Hs1 [] w mt1); [done|done|]. simpl.
  do 3 wp_step. simpl. rewrite lookup_insert_ne, Ht2 by done.
  do 2 wp_step. simpl. rewrite lookup_insert_ne, Hq2 by done.
  apply (polyak_loop _ _ _ Hs2 [] _ mt2); simpl.
  - by rewrite lookup_insert_ne.
  - done.
  - by wp_step.
Qed.
End TargetSynchronization.

(** ** The critic update *)

Section CriticUpdate.
Context `{Framework}.

(** A successful run of [update_q_functions]: the world afterwards, when
    both critics and their targets answer with one value per sample. *)
Lemma update_q_functions_run itr (samples : minibatch) (w : world)
    (mπ m1 m2 mt1 mt2 : module) :
  let s := self w in
  let obs := observation samples in
  let actions := action samples in
  let next_obs := next_observation samples in
  let next_actions := (get_actions (parameters mπ) next_obs (rng w)).1 in
  let B := length (reward samples) in
  let bellman1 := bellman_of s (parameters mπ) (parameters mt1) samples (rng w) in
  let bellman2 := bellman_of s (parameters mπ) (parameters mt2) samples (rng w) in
  let step1 := gradient_step (qf1_optimizer s) (parameters m1)
                 (q_objective_fn obs actions bellman1) in
  let step2 := gradient_step (qf2_optimizer s) (parameters m2)
                 (q_objective_fn obs actions bellman2) in
  well_formed s →
  heap w !! policy s = Some mπ →
  heap w !! qf1 s = Some m1 →
  heap w !! qf2 s = Some m2 →
  heap w !! target_qf1 s = Some mt1 →
  heap w !! target_qf2 s = Some mt2 →
  length (log_likelihood (parameters mπ) next_obs next_actions) = B →
  length (qf_forward (parameters mt1) next_obs next_actions) = B →
  length (qf_forward (parameters mt2) next_obs next_actions) = B →
  length (qf_forward (parameters m1) obs actions) = B →
  length (qf_forward (parameters m2) obs actions) = B →
  update_q_functions itr samples w =
    Ok tt {| heap := <[qf2 s := step2.1]> (<[qf1 s := step1.1]> (heap w));
             self := set_optimizer Qf2Optimizer step2.2
                       (set_optimizer Qf1Optimizer step1.2 s);
             rng := (get_actions (parameters mπ) next_obs (rng w)).2;
             log := log w;
             ipdb_importable := ipdb_importable w |}.
Proof.
  intros s obs actions next_obs next_actions B bellman1 bellman2 step1 step2
    (Ho0 & Ho1 & Ho2 & Hnd) Hπ Hq1 Hq2 Ht1 Ht2 Hll Hto1 Hto2 Hc1 Hc2.
  assert (qf1 s ≠ qf2 s ∧ qf1 s ≠ target_qf2 s) as [Hne12 Hne1t].
  { split; [apply (NoDup_distinct _ 1 2 _ _ Hnd)|
             apply (NoDup_distinct _ 1 5 _ _ Hnd)]; done. }
  set (X := Build_world _ _ _ _ _ _).
  enough (wp (update_q_functions itr samples) (λ _ w', w' = X)
             (λ _ _, False) w) as Hwp.
  { unfold wp in Hwp. destruct (update_q_functions _ _ w) as [[] w'|]; [|done].
    by rewrite Hwp. }
  unfold update_q_functions. wp_run_flat. fold s. rewrite Hπ.
  wp_run_flat. fold next_obs next_actions. simpl zip. wp_run_flat.
  (* first critic *)
  rewrite Hq1. wp_run_flat. rewrite Ht1. wp_run_flat. fold s.
  rewrite broadcast2_same_length by (rewrite scale_length; congruence).
  wp_run_flat.
  rewrite broadcast2_same_length
    by (rewrite scale_length, length_zip_with, scale_length; fold B; lia).
  change (zip_with Qcplus _ _) with bellman1.
  assert (length bellman1 = B) as Hb1.
  { unfold bellman1, bellman_of.
    rewrite length_zip_with, scale_length, length_zip_with, scale_length.
    fold next_obs next_actions B. lia. }
  wp_run_flat.
  rewrite mse_loss_same_length by (fold obs actions; congruence).
  cbn [result_bind]. wp_run_flat.
  fold s. rewrite Ho1, Hq1.
  wp_run_flat. rewrite decide_True by done. wp_run_flat.
  rewrite lookup_insert_eq. wp_run_flat.
  fold s. rewrite Ho1, lookup_insert_eq.
  world_flat. cbv beta iota.
  destruct (optimizer_step (opt_state (qf1_optimizer s)) _ _)
    as [θ1 st1] eqn:E1.
  wp_run_flat.
  (* second critic *)
  rewrite !lookup_insert_ne, Hq2 by done. wp_run_flat.
  rewrite !lookup_insert_ne, Ht2 by done. wp_run_flat. fold s.
  rewrite broadcast2_same_length by (rewrite scale_length; congruence).
  wp_run_flat.
  rewrite broadcast2_same_length
    by (rewrite scale_length, length_zip_with, scale_length; fold B; lia).
  change (zip_with Qcplus _ _) with bellman2.
  assert (length bellman2 = B) as Hb2.
  { unfold bellman2, bellman_of.
    rewrite length_zip_with, scale_length, length_zip_with, scale_length.
    fold next_obs next_actions B. lia. }
  wp_run_flat.
  rewrite mse_loss_same_length by (fold obs actions; congruence).
  cbn [result_bind]. wp_run_flat.
  fold s. rewrite Ho2.
  rewrite !lookup_insert_ne, Hq2 by done.
  wp_run_flat. try rewrite decide_True by done. wp_run_flat.
  rewrite lookup_insert_eq. wp_run_flat.
  fold s. rewrite Ho2, lookup_insert_eq.
  world_flat. cbv beta iota.
  destruct (optimizer_step (opt_state (qf2_optimizer s)) _ _)
    as [θ2 st2] eqn:E2.
  wp_run_flat.
  unfold X, step1, step2, gradient_step.
  fold s obs actions. fold obs actions in E1, E2. rewrite E1, E2.
  world_flat.
  rewrite <- Ho1, <- Ho2. f_equal.
  by rewrite !insert_insert_eq.
Qed.
End CriticUpdate.

(** ** Construction *)

Section ConstructionProperties.
Context `{Framework}.

Lemma deepcopy_spec l (h : gmap loc module) m :
  h !! l = Some m →
  ∃ l', deepcopy l h = Val (l', <[l' := m]> h) ∧ h !! l' = None.
Proof.
  intros Hl. unfold deepcopy. rewrite Hl. eexists. split; [done|].
  apply not_elem_of_dom, is_fresh.
Qed.

(** The constructor on three different live networks: the targets are three
    new objects holding copies of the live networks, the optimizers are
    bound to the live networks, and the objects that existed before are
    untouched. *)
Lemma SAC_init_spec action_shape pol q1 q2 α rb te auto γ bs mbs τ plr qlr
    (h : gmap loc module) (mπ m1 m2 : module) :
  h !! pol = Some mπ → h !! q1 = Some m1 → h !! q2 = Some m2 →
  NoDup [pol; q1; q2] →
  ∃ s h',
    SAC_init action_shape pol q1 q2 α rb te auto γ bs mbs τ plr qlr h
      = Val (s, h') ∧
    well_formed s ∧
    policy s = pol ∧ qf1 s = q1 ∧ qf2 s = q2 ∧
    alpha s = α ∧ tau s = τ ∧ discount s = γ ∧
    n_train_steps s = 1%nat ∧ n_epoch_cycles s = 1%nat ∧
    buffer_batch_size s = bs ∧ min_buffer_size s = mbs ∧
    replay_buffer s = rb ∧ use_automatic_entropy_tuning s = auto ∧
    h' !! target_policy s = Some mπ ∧
    h' !! target_qf1 s = Some m1 ∧
    h' !! target_qf2 s = Some m2 ∧
    (∀ l, is_Some (h !! l) → h' !! l = h !! l).
Proof.
  intros Hπ H1 H2 Hnd. unfold SAC_init.
  destruct (deepcopy_spec _ _ _ Hπ) as (tπ & -> & Hfπ). simpl.
  assert (tπ ≠ pol ∧ tπ ≠ q1 ∧ tπ ≠ q2) as (Nπ0 & Nπ1 & Nπ2)
    by (split_and!; congruence).
  destruct (deepcopy_spec q1 (<[tπ := mπ]> h) m1) as (t1 & -> & Hf1).
  { by rewrite lookup_insert_ne. }
  simpl. apply lookup_insert_None in Hf1 as [Hf1 N1π].
  assert (t1 ≠ pol ∧ t1 ≠ q1 ∧ t1 ≠ q2) as (N10 & N11 & N12)
    by (split_and!; congruence).
  destruct (deepcopy_spec q2 (<[t1 := m1]> (<[tπ := mπ]> h)) m2)
    as (t2 & -> & Hf2).
  { by rewrite !lookup_insert_ne. }
  simpl. apply lookup_insert_None in Hf2 as [Hf2 N21].
  apply lookup_insert_None in Hf2 as [Hf2 N2π].
  assert (t2 ≠ pol ∧ t2 ≠ q1 ∧ t2 ≠ q2) as (N20 & N21' & N22)
    by (split_and!; congruence).
  unfold new_optimizer.
  rewrite !(lookup_insert_ne _ _ pol), Hπ by done. simpl.
  rewrite !(lookup_insert_ne _ _ q1), H1 by done. simpl.
  rewrite !(lookup_insert_ne _ _ q2), H2 by done. simpl.
  eexists _, _. split; [done|]. simpl. split_and!; try done.
  - unfold well_formed. simpl. split_and!; try done.
    change (NoDup ([pol; q1; q2] ++ [tπ; t1; t2])). apply NoDup_app.
    split_and!; [done| |].
    + intros x Hx Hx'. set_unfold. intuition congruence.
    + apply NoDup_cons. split; [set_unfold; intuition congruence|].
      apply NoDup_cons. split; [set_unfold; intuition congruence|].
      apply NoDup_singleton.
  - rewrite (lookup_insert_ne _ t2), (lookup_insert_ne _ t1) by done.
    apply lookup_insert_eq.
  - rewrite (lookup_insert_ne _ t2) by done. apply lookup_insert_eq.
  - apply lookup_insert_eq.
  - intros l [m Hl]. rewrite !lookup_insert_ne; [done|congruence..].
Qed.
End ConstructionProperties.

Lemma Toy_built_eq : Toy.built = Val (Toy.trainer0, Toy.heap1).
Proof. reflexivity. Qed.

(** ** The actor update *)

Section ActorUpdate.
Context `{Framework}.

Lemma same_parameters_store (w0 w : world) l m :
  same_parameters w0 w → heap w !! l = Some m →
  same_parameters w0
    (set_heap (<[l := {| parameters := parameters m; grad := None |}]> (heap w)) w).
Proof.
  intros Hs Hl l'. simpl. destruct (decide (l = l')) as [<-|Hne].
  - rewrite lookup_insert_eq, <- Hs, Hl. done.
  - rewrite lookup_insert_ne by done. apply Hs.
Qed.

(** [optimize_policy] raises in every world, with the parameters of every
    network and the whole trainer object as they were: no gradient is
    computed and no optimizer step is taken. *)
Lemma optimize_policy_no_step itr samples w :
  wp (optimize_policy itr samples) (λ _ _, False)
     (λ _ w', same_parameters w w' ∧ self w' = self w) w.
Proof.
  assert (same_parameters w w) as Hrefl by done.
  unfold optimize_policy.
  do 4 wp_step. destruct (heap w !! policy (self w)); [|done].
  do 4 wp_step. world_simpl.
  destruct (heap w !! qf1 (self w)); [|done].
  do 2 wp_step. world_simpl.
  destruct (heap w !! qf2 (self w)); [|done].
  do 2 wp_step. destruct (broadcast2 _ _ _); [|done].
  do 2 wp_step. destruct (broadcast2 _ _ _); [|done].
  wp_step. unfold zero_grad. do 4 wp_step. world_simpl.
  destruct (heap w !! opt_params (policy_optimizer (self w))) eqn:Ho; [|done].
  wp_step. wp_step. unfold wp. rewrite call_method_backwards.
  split; [|done]. by apply (same_parameters_store w (set_rng _ w)).
Qed.
End ActorUpdate.

(** ** Sequences of operations *)

Section RunsProperties.
Context `{Framework}.

(** Every object any operation can write: the footprint of the trainer's
    methods and the live policy. *)
Lemma footprint_config (s s' : SAC) :
  config s = config s' → policy s :: footprint s = policy s' :: footprint s'.
Proof.
  intros Hc. unfold footprint. destruct (config_eq_inv _ _ Hc)
    as (-> & -> & -> & -> & -> & -> & -> & -> & _). done.
Qed.

Lemma framed_final {A} (m : M A) F (L : list event → Prop) w0 w :
  wp m (λ _, framed F L w0) (λ _, framed F L w0) w →
  framed F L w0 (final (m w)).
Proof. unfold wp, final. by destruct (m w). Qed.

Lemma perform_framed (op : operation) (w : world) :
  framed (policy (self w) :: footprint (self w)) (λ _, True) w (perform op w).
Proof.
  assert (framed (policy (self w) :: footprint (self w)) (λ _, True) w w)
    as Hrefl by (by apply framed_refl).
  assert (footprint (self w) ⊆ policy (self w) :: footprint (self w)) as Hsub
    by (intros x Hx; by constructor).
  destruct op as [itr paths|itr samples|itr samples|itr| |θ]; simpl.
  - pose proof (train_once_outcome itr paths w) as Hwp. unfold wp in Hwp.
    destruct (train_once itr paths w) as [a w'|e w']; simpl.
    + destruct Hwp as [_ Hf]. by eapply framed_weaken.
    + by eapply framed_weaken.
  - apply framed_final, update_q_functions_framed; [done|..];
      unfold footprint; in_list.
  - apply framed_final, optimize_policy_framed; [done|..];
      unfold footprint; in_list.
  - done.
  - apply framed_final, update_targets_framed; [done|..];
      unfold footprint; in_list.
  - destruct (heap w !! policy (self w)); [|done].
    apply framed_store; [done|]. in_list.
Qed.

Lemma perform_all_framed (ops : list operation) (w : world) :
  framed (policy (self w) :: footprint (self w)) (λ _, True) w
         (perform_all ops w).
Proof.
  revert w. induction ops as [|op ops IH]; intros w; simpl.
  - by apply framed_refl.
  - pose proof (perform_framed op w) as H1.
    pose proof (IH (perform op w)) as H2.
    rewrite (footprint_config _ _ (framed_config _ _ _ _ H1)) in H2.
    eapply framed_trans; [done|exact H1|exact H2].
Qed.
End RunsProperties.

(** * The claims *)

(** ** C1: the target-update law *)

Section PolyakLaw.
Context `{Framework}.

Lemma synchronized_structure τ (ts ps : list tensor) :
  same_structure ts ps → same_structure (synchronized τ ts ps) ts.
Proof.
  unfold same_structure, synchronized.
  induction 1 as [|t p ts ps Hl _ IH]; simpl; constructor; [|done].
  rewrite length_zip_with. lia.
Qed.

Lemma synchronized_lookup τ (ts ps : list tensor) j k T P t p :
  ts !! j = Some T → T !! k = Some t →
  ps !! j = Some P → P !! k = Some p →
  ∃ T', synchronized τ ts ps !! j = Some T' ∧
        T' !! k = Some (polyak_average τ t p).
Proof.
  intros HT Ht HP Hp. unfold synchronized.
  exists (zip_with (λ t p, t * (1 - τ) + p * τ) T P). split.
  - apply lookup_zip_with_Some. eauto.
  - apply lookup_zip_with_Some. exists t, p. split; [|done].
    unfold polyak_average. ring.
Qed.

Lemma zip_with_left (f : scalar → scalar → scalar) (t p : tensor) :
  length t = length p → (∀ x y, f x y = x) → zip_with f t p = t.
Proof.
  revert p. induction t as [|x t IH]; intros [|y p] Hl Hf; simpl in *;
    try done.
  rewrite Hf, IH; [done|lia|done].
Qed.

Lemma zip_with_right (f : scalar → scalar → scalar) (t p : tensor) :
  length t = length p → (∀ x y, f x y = y) → zip_with f t p = p.
Proof.
  revert p. induction t as [|x t IH]; intros [|y p] Hl Hf; simpl in *;
    try done.
  rewrite Hf, IH; [done|lia|done].
Qed.

Lemma synchronized_rate_0 (ts ps : list tensor) :
  same_structure ts ps → synchronized 0 ts ps = ts.
Proof.
  unfold same_structure, synchronized.
  induction 1 as [|t p ts ps Hl _ IH]; simpl; [done|].
  rewrite IH, zip_with_left; [done|done|]. intros x y. ring.
Qed.

Lemma synchronized_rate_1 (ts ps : list tensor) :
  same_structure ts ps → synchronized 1 ts ps = ps.
Proof.
  unfold same_structure, synchronized.
  induction 1 as [|t p ts ps Hl _ IH]; simpl; [done|].
  rewrite IH, zip_with_right; [done|done|]. intros x y. ring.
Qed.

Lemma synchronized_polyak_updated τ (ts ps : list tensor) :
  same_structure ts ps → polyak_updated τ ts ps (synchronized τ ts ps).
Proof.
  intros Hs. split_and!.
  - by apply synchronized_structure.
  - intros j k T P t p. apply synchronized_lookup.
  - intros ->. by apply synchronized_rate_0.
  - intros ->. by apply synchronized_rate_1.
Qed.

(** C1.  One call of [update_targets], in a world where the two target
    critics have the structure of the two live critics (as deep copies
    have): the call returns, each target critic's parameters are replaced
    element by element by [(1 - tau) * old_target + tau * live], for every
    rate [tau] (so for every rate between 0 and 1), where [live] are the
    live parameters of the world the call starts in, that is, as the critic
    and actor updates before it left them.  At rate 0 the target parameters
    are unchanged, at rate 1 they are the live parameters.  The live critics
    are not written. *)
Theorem update_targets_polyak (w : world) (mt1 mt2 m1 m2 : module) :
  well_formed (self w) →
  heap w !! target_qf1 (self w) = Some mt1 →
  heap w !! target_qf2 (self w) = Some mt2 →
  heap w !! qf1 (self w) = Some m1 →
  heap w !! qf2 (self w) = Some m2 →
  same_structure (parameters mt1) (parameters m1) →
  same_structure (parameters mt2) (parameters m2) →
  ∃ w' mt1' mt2',
    update_targets w = Ok tt w' ∧
    heap w' !! target_qf1 (self w) = Some mt1' ∧
    heap w' !! target_qf2 (self w) = Some mt2' ∧
    polyak_updated (tau (self w)) (parameters mt1) (parameters m1)
                   (parameters mt1') ∧
    polyak_updated (tau (self w)) (parameters mt2) (parameters m2)
                   (parameters mt2') ∧
    heap w' !! qf1 (self w) = Some m1 ∧
    heap w' !! qf2 (self w) = Some m2 ∧
    self w' = self w.
Proof.
  intros Hwf Ht1 Ht2 Hq1 Hq2 Hs1 Hs2.
  rewrite (update_targets_run w mt1 mt2 m1 m2) by done.
  destruct Hwf as (_ & _ & _ & Hnd).
  eexists _, _, _. split; [done|]. simpl. split_and!.
  - rewrite lookup_insert_ne; [apply lookup_insert_eq|].
    apply (NoDup_distinct _ 5 4 _ _ Hnd); done.
  - apply lookup_insert_eq.
  - by apply synchronized_polyak_updated.
  - by apply synchronized_polyak_updated.
  - rewrite !lookup_insert_ne; [done|..].
    + apply (NoDup_distinct _ 4 1 _ _ Hnd); done.
    + apply (NoDup_distinct _ 5 1 _ _ Hnd); done.
  - rewrite !lookup_insert_ne; [done|..].
    + apply (NoDup_distinct _ 4 2 _ _ Hnd); done.
    + apply (NoDup_distinct _ 5 2 _ _ Hnd); done.
  - done.
Qed.
End PolyakLaw.

Lemma update_targets_polyak_witness :
  ∃ w', update_targets Toy.world1 = Ok tt w' ∧ self w' = self Toy.world1.
Proof.
  edestruct (update_targets_polyak (H := Toy.framework) Toy.world1)
    as (w' & mt1' & mt2' & Hrun & _ & _ & _ & _ & _ & _ & Hself).
  - vm_compute. split_and!; try reflexivity.
    apply (bool_decide_unpack _). vm_compute. exact I.
  - vm_compute. reflexivity.
  - vm_compute. reflexivity.
  - vm_compute. reflexivity.
  - vm_compute. reflexivity.
  - repeat constructor.
  - repeat constructor.
  - exists w'. split; [exact Hrun|exact Hself].
Defined.

(** ** C3 and C5: the critic update *)

Section SoftBellman.
Context `{Framework}.

Lemma bellman_of_soft_target (s : SAC) (π θ' : list tensor)
    (samples : minibatch) (r : rng_state) :
  let next_obs := next_observation samples in
  let next_actions := (get_actions π next_obs r).1 in
  let next_ll := log_likelihood π next_obs next_actions in
  let targ_out := qf_forward θ' next_obs next_actions in
  length next_ll = length (reward samples) →
  length targ_out = length (reward samples) →
  is_soft_bellman_target (discount s) (alpha s) (reward samples)
    targ_out next_ll (bellman_of s π θ' samples r).
Proof.
  intros next_obs next_actions next_ll targ_out Hll Hto.
  unfold is_soft_bellman_target, bellman_of.
  fold next_obs next_actions next_ll targ_out. split.
  - rewrite length_zip_with, scale_length, length_zip_with, scale_length. lia.
  - intros k rk q l Hr Hq Hl. apply lookup_zip_with_Some.
    exists rk, (discount s * (q - alpha s * l)). split_and!; [done|done|].
    rewrite scale_lookup.
    assert (zip_with Qcminus targ_out (scale (alpha s) next_ll) !! k
            = Some (q - alpha s * l)) as ->; [|done].
    apply lookup_zip_with_Some. exists q, (alpha s * l).
    split_and!; [done|done|]. by rewrite scale_lookup, Hl.
Qed.

Lemma q_objective_fn_half_mse (obs : obs_batch) (actions : act_batch)
    (bellman : tensor) (θ : list tensor) :
  length (qf_forward θ obs actions) = length bellman →
  q_objective_fn obs actions bellman θ
    = Val (half_mse (qf_forward θ obs actions) bellman).
Proof.
  intros Hl. unfold q_objective_fn, half_mse.
  by rewrite mse_loss_same_length.
Qed.

(** C3.  In a run of [update_q_functions] where the critics, their targets
    and the policy answer with one value per sample: the next action is
    drawn once from the live policy at [next_observation] (the generator
    moves by that one draw) and its log-likelihood is that of the same
    sample; for each critic the regression target is, sample by sample,
    [reward + discount * (Q_target(s', a') - alpha * log pi(a'|s'))]; the
    flags [done] of the minibatch play no part; and the loss whose gradient
    step the critic takes is half the mean squared error between its values
    and that target. *)
Theorem update_q_functions_soft_bellman itr (samples : minibatch) (w : world)
    (mπ m1 m2 mt1 mt2 : module) :
  let s := self w in
  let obs := observation samples in
  let actions := action samples in
  let next_obs := next_observation samples in
  let next_actions := (get_actions (parameters mπ) next_obs (rng w)).1 in
  let next_ll := log_likelihood (parameters mπ) next_obs next_actions in
  let B := length (reward samples) in
  let bellman1 := bellman_of s (parameters mπ) (parameters mt1) samples (rng w) in
  let bellman2 := bellman_of s (parameters mπ) (parameters mt2) samples (rng w) in
  well_formed s →
  heap w !! policy s = Some mπ →
  heap w !! qf1 s = Some m1 →
  heap w !! qf2 s = Some m2 →
  heap w !! target_qf1 s = Some mt1 →
  heap w !! target_qf2 s = Some mt2 →
  length next_ll = B →
  length (qf_forward (parameters mt1) next_obs next_actions) = B →
  length (qf_forward (parameters mt2) next_obs next_actions) = B →
  length (qf_forward (parameters m1) obs actions) = B →
  length (qf_forward (parameters m2) obs actions) = B →
  ∃ w',
    update_q_functions itr samples w = Ok tt w' ∧
    rng w' = (get_actions (parameters mπ) next_obs (rng w)).2 ∧
    is_soft_bellman_target (discount s) (alpha s) (reward samples)
      (qf_forward (parameters mt1) next_obs next_actions) next_ll bellman1 ∧
    is_soft_bellman_target (discount s) (alpha s) (reward samples)
      (qf_forward (parameters mt2) next_obs next_actions) next_ll bellman2 ∧
    heap w' !! qf1 s
      = Some (gradient_step (qf1_optimizer s) (parameters m1)
                (q_objective_fn obs actions bellman1)).1 ∧
    heap w' !! qf2 s
      = Some (gradient_step (qf2_optimizer s) (parameters m2)
                (q_objective_fn obs actions bellman2)).1 ∧
    (∀ θ, length (qf_forward θ obs actions) = B →
          q_objective_fn obs actions bellman1 θ
            = Val (half_mse (qf_forward θ obs actions) bellman1)) ∧
    (∀ θ, length (qf_forward θ obs actions) = B →
          q_objective_fn obs actions bellman2 θ
            = Val (half_mse (qf_forward θ obs actions) bellman2)) ∧
    (∀ d, update_q_functions itr (with_done d samples) w
            = update_q_functions itr samples w).
Proof.
  intros s obs actions next_obs next_actions next_ll B bellman1 bellman2
    Hwf Hπ Hq1 Hq2 Ht1 Ht2 Hll Hto1 Hto2 Hc1 Hc2.
  pose proof (bellman_of_soft_target s (parameters mπ) (parameters mt1)
                samples (rng w) Hll Hto1) as Hb1.
  pose proof (bellman_of_soft_target s (parameters mπ) (parameters mt2)
                samples (rng w) Hll Hto2) as Hb2.
  pose proof (update_q_functions_run itr samples w mπ m1 m2 mt1 mt2
                Hwf Hπ Hq1 Hq2 Ht1 Ht2 Hll Hto1 Hto2 Hc1 Hc2) as Hrun.
  destruct Hwf as (_ & _ & _ & Hnd).
  eexists. split; [exact Hrun|]. simpl. split_and!; try done.
  - rewrite lookup_insert_ne; [apply lookup_insert_eq|].
    apply (NoDup_distinct _ 2 1 _ _ Hnd); done.
  - apply lookup_insert_eq.
  - intros θ Hθ. apply q_objective_fn_half_mse.
    etrans; [exact Hθ|]. symmetry. apply Hb1.
  - intros θ Hθ. apply q_objective_fn_half_mse.
    etrans; [exact Hθ|]. symmetry. apply Hb2.
Qed.

(** C5.  One call of [update_q_functions] on two different critics (same
    conditions as for C3): each critic's new parameters are those of one
    step of its own optimizer, from its own old parameters, along the
    gradient of its own Bellman-residual loss (the [.grad] left on the critic
    is that single gradient, not a sum with older ones); nothing in the
    result for one critic mentions the other critic's parameters, gradient
    or optimizer.  Every other object is as before: the two target critics
    and the policy in particular. *)
Theorem update_q_functions_independent itr (samples : minibatch) (w : world)
    (mπ m1 m2 mt1 mt2 : module) :
  let s := self w in
  let obs := observation samples in
  let actions := action samples in
  let next_obs := next_observation samples in
  let next_actions := (get_actions (parameters mπ) next_obs (rng w)).1 in
  let B := length (reward samples) in
  let loss1 := q_objective_fn obs actions
                 (bellman_of s (parameters mπ) (parameters mt1) samples (rng w)) in
  let loss2 := q_objective_fn obs actions
                 (bellman_of s (parameters mπ) (parameters mt2) samples (rng w)) in
  well_formed s →
  heap w !! policy s = Some mπ →
  heap w !! qf1 s = Some m1 →
  heap w !! qf2 s = Some m2 →
  heap w !! target_qf1 s = Some mt1 →
  heap w !! target_qf2 s = Some mt2 →
  length (log_likelihood (parameters mπ) next_obs next_actions) = B →
  length (qf_forward (parameters mt1) next_obs next_actions) = B →
  length (qf_forward (parameters mt2) next_obs next_actions) = B →
  length (qf_forward (parameters m1) obs actions) = B →
  length (qf_forward (parameters m2) obs actions) = B →
  ∃ w',
    update_q_functions itr samples w = Ok tt w' ∧
    heap w' !! qf1 s =
      Some {| parameters :=
                (optimizer_step (opt_state (qf1_optimizer s)) (parameters m1)
                   (autograd loss1 (parameters m1))).1;
              grad := Some (autograd loss1 (parameters m1)) |} ∧
    heap w' !! qf2 s =
      Some {| parameters :=
                (optimizer_step (opt_state (qf2_optimizer s)) (parameters m2)
                   (autograd loss2 (parameters m2))).1;
              grad := Some (autograd loss2 (parameters m2)) |} ∧
    (∀ l, l ≠ qf1 s → l ≠ qf2 s → heap w' !! l = heap w !! l) ∧
    heap w' !! target_qf1 s = Some mt1 ∧
    heap w' !! target_qf2 s = Some mt2 ∧
    heap w' !! policy s = Some mπ ∧
    alpha (self w') = alpha s.
Proof.
  intros s obs actions next_obs next_actions B loss1 loss2
    Hwf Hπ Hq1 Hq2 Ht1 Ht2 Hll Hto1 Hto2 Hc1 Hc2.
  rewrite (update_q_functions_run itr samples w mπ m1 m2 mt1 mt2) by done.
  destruct Hwf as (_ & _ & _ & Hnd).
  assert (∀ l, l ≠ qf1 s → l ≠ qf2 s →
            <[qf2 s := (gradient_step (qf2_optimizer s) (parameters m2) loss2).1]>
              (<[qf1 s := (gradient_step (qf1_optimizer s) (parameters m1) loss1).1]>
                 (heap w)) !! l = heap w !! l) as Hframe.
  { intros l Hl1 Hl2. by rewrite !lookup_insert_ne. }
  eexists. split; [done|]. simpl. split_and!.
  - rewrite lookup_insert_ne; [apply lookup_insert_eq|].
    apply (NoDup_distinct _ 2 1 _ _ Hnd); done.
  - apply lookup_insert_eq.
  - exact Hframe.
  - rewrite Hframe; [done|..].
    + apply (NoDup_distinct _ 4 1 _ _ Hnd); done.
    + apply (NoDup_distinct _ 4 2 _ _ Hnd); done.
  - rewrite Hframe; [done|..].
    + apply (NoDup_distinct _ 5 1 _ _ Hnd); done.
    + apply (NoDup_distinct _ 5 2 _ _ Hnd); done.
  - rewrite Hframe; [done|..].
    + apply (NoDup_distinct _ 0 1 _ _ Hnd); done.
    + apply (NoDup_distinct _ 0 2 _ _ Hnd); done.
  - done.
Qed.
End SoftBellman.

Lemma update_q_functions_soft_bellman_witness :
  ∃ w', update_q_functions 0 Toy.samples0 Toy.world0 = Ok tt w' ∧
        rng w' = 1%nat.
Proof.
  destruct (update_q_functions_soft_bellman (H := Toy.framework)
              0%nat Toy.samples0 Toy.world0
              (Toy.net 1 0) (Toy.net 2 1) (Toy.net 3 1)
              (Toy.net 2 1) (Toy.net 3 1))
    as (w' & Hrun & Hrng & _).
  - split_and!; try reflexivity.
    apply (bool_decide_unpack _). vm_compute. exact I.
  - reflexivity.
  - reflexivity.
  - reflexivity.
  - reflexivity.
  - reflexivity.
  - reflexivity.
  - reflexivity.
  - reflexivity.
  - reflexivity.
  - reflexivity.
  - exists w'. split; [exact Hrun|]. rewrite Hrng. reflexivity.
Defined.

Lemma update_q_functions_independent_witness :
  ∃ w', update_q_functions 0 Toy.samples0 Toy.world0 = Ok tt w' ∧
        heap w' !! 4%nat = Some (Toy.net 2 1) ∧
        heap w' !! 5%nat = Some (Toy.net 3 1) ∧
        heap w' !! 0%nat = Some (Toy.net 1 0).
Proof.
  destruct (update_q_functions_independent (H := Toy.framework)
              0%nat Toy.samples0 Toy.world0
              (Toy.net 1 0) (Toy.net 2 1) (Toy.net 3 1)
              (Toy.net 2 1) (Toy.net 3 1))
    as (w' & Hrun & _ & _ & _ & Ht1 & Ht2 & Hπ & _).
  - split_and!; try reflexivity.
    apply (bool_decide_unpack _). vm_compute. exact I.
  - reflexivity.
  - reflexivity.
  - reflexivity.
  - reflexivity.
  - reflexivity.
  - reflexivity.
  - reflexivity.
  - reflexivity.
  - reflexivity.
  - reflexivity.
  - exists w'. split_and!; [exact Hrun|exact Ht1|exact Ht2|exact Hπ].
Defined.

(** ** C8 and C10: what no operation writes *)

Section NeverWritten.
Context `{Framework}.

(** C8.  With automatic entropy tuning disabled, the entropy coefficient
    is the same after any sequence of operations on the trainer, calls of
    [train_once] among them, whether they return or raise; and
    [adjust_temperature] returns at once and leaves the world as it is. *)
Theorem alpha_is_fixed (ops : list operation) (w : world) :
  use_automatic_entropy_tuning (self w) = false →
  alpha (self (perform_all ops w)) = alpha (self w) ∧
  (∀ itr, adjust_temperature itr w = Ok tt w) ∧
  use_automatic_entropy_tuning (self (perform_all ops w)) = false.
Proof.
  intros Hoff. pose proof (perform_all_framed ops w) as [Hc _ _ _].
  split_and!.
  - by destruct (config_eq_inv _ _ Hc) as (_ & _ & _ & _ & _ & _ & _ & _ & _ & -> & _).
  - done.
  - unfold config in Hc. injection Hc as _ Hauto _. congruence.
Qed.

(** C10.  A trainer built by the constructor on three different live
    networks, then any sequence of operations: calls of the trainer's
    methods in any order and in-place changes of the live policy's
    parameters.  The target policy is still the object the constructor made,
    and it still holds the parameters the live policy had at construction. *)
Theorem target_policy_is_snapshot action_shape pol q1 q2 α rb te auto γ bs mbs
    τ plr qlr (h h' : gmap loc module) (mπ m1 m2 : module) (s : SAC)
    (r : rng_state) (ipdb : bool) (ops : list operation) :
  h !! pol = Some mπ → h !! q1 = Some m1 → h !! q2 = Some m2 →
  NoDup [pol; q1; q2] →
  SAC_init action_shape pol q1 q2 α rb te auto γ bs mbs τ plr qlr h
    = Val (s, h') →
  let w := perform_all ops (new_world s h' r ipdb) in
  target_policy (self w) = target_policy s ∧
  target_policy s ≠ pol ∧
  parameters <$> heap w !! target_policy s = Some (parameters mπ).
Proof.
  intros Hπ H1 H2 Hnd Hinit w.
  destruct (SAC_init_spec action_shape pol q1 q2 α rb te auto γ bs mbs τ plr
              qlr h mπ m1 m2 Hπ H1 H2 Hnd)
    as (s' & h'' & Hinit' & Hwf & Hpol & Hq1 & Hq2 & _ & _ & _ & _ & _ & _
        & _ & _ & _ & Htπ & _).
  rewrite Hinit in Hinit'. injection Hinit' as <- <-.
  pose proof (perform_all_framed ops (new_world s h' r ipdb)) as [Hc _ Hh _].
  fold w in Hc, Hh. simpl in Hc, Hh.
  destruct Hwf as (Ho0 & Ho1 & Ho2 & Hnd6).
  split_and!.
  - by destruct (config_eq_inv _ _ Hc) as (_ & _ & _ & _ & _ & _ & _ & _ & -> & _).
  - rewrite <- Hpol. apply (NoDup_distinct _ 3 0 _ _ Hnd6); done.
  - rewrite Hh, Htπ; [done|].
    unfold footprint. rewrite Ho0, Ho1, Ho2. intros Hin.
    apply (NoDup_cons_1_1 (target_policy s)
             [policy s; qf1 s; qf2 s; target_qf1 s; target_qf2 s]).
    + eapply NoDup_Permutation_proper; [|exact Hnd6].
      change (target_policy s :: [policy s; qf1 s; qf2 s]
                ++ [target_qf1 s; target_qf2 s]
              ≡ₚ [policy s; qf1 s; qf2 s] ++ target_policy s
                   :: [target_qf1 s; target_qf2 s]).
      apply Permutation_middle.
    + set_unfold. intuition congruence.
Qed.
End NeverWritten.

Lemma alpha_is_fixed_witness :
  alpha (self (perform_all Toy.calls Toy.world0)) = alpha (self Toy.world0).
Proof.
  apply (alpha_is_fixed (H := Toy.framework) Toy.calls Toy.world0).
  reflexivity.
Defined.

Lemma target_policy_is_snapshot_witness :
  parameters <$> heap (perform_all Toy.calls_and_writes Toy.world0) !! 3%nat
  = Some (parameters (Toy.net 1 0)).
Proof.
  apply (target_policy_is_snapshot (H := Toy.framework)
           [1%nat] 0%nat 1%nat 2%nat 1 0%nat None false one_half
           2%nat 100%nat one_half one_half one_half
           Toy.heap0 Toy.heap1 (Toy.net 1 0) (Toy.net 2 1) (Toy.net 3 1)
           Toy.trainer0 0%nat true Toy.calls_and_writes).
  - reflexivity.
  - reflexivity.
  - reflexivity.
  - apply (bool_decide_unpack _). vm_compute. exact I.
  - reflexivity.
Defined.

(** ** C2, C4, C6 and C7: where [train_once] departs from the claims *)

Section Departures.
Context `{Framework}.

(** C2 (the code departs from the claim).  [optimize_policy] returns in no
    world: in every world it raises, and it leaves the parameters of every
    network and the trainer with its optimizers as they were.  No
    backpropagation and no optimizer step take place. *)
Theorem optimize_policy_never_steps itr (samples : minibatch) (w : world) :
  ∃ e w', optimize_policy itr samples w = Raise e w' ∧
          same_parameters w w' ∧ self w' = self w.
Proof.
  pose proof (optimize_policy_no_step itr samples w) as Hwp. unfold wp in Hwp.
  destruct (optimize_policy itr samples w) as [a w'|e w']; [done|].
  by exists e, w'.
Qed.

Lemma take_train_trace_allowed (n : nat) (b : minibatch) (k : nat) :
  Forall (λ e, e ≠ CallAdjustTemperature ∧ e ≠ CallUpdateTargets)
         (take k (train_trace n b)).
Proof. apply Forall_take. unfold train_trace. repeat constructor; done. Qed.

(** C4 (the code departs from the claim).  A call of [train_once] with a
    training step to run never returns: it raises.  What it adds to the log
    is a prefix of: one sampling of [buffer_batch_size] transitions, a stop
    in the debugger, the critic update on the sampled minibatch, a stop in
    the debugger, the actor update on the same minibatch.  The entropy
    adjustment and the target synchronization are never called. *)
Theorem train_once_never_reaches_targets itr (paths : raw_paths) (w : world) :
  (n_train_steps (self w) = 0%nat ∨
   ∃ e w', train_once itr paths w = Raise e w') ∧
  ∃ new b k,
    log (final (train_once itr paths w)) = log w ++ new ∧
    new = take k (train_trace (buffer_batch_size (self w)) b) ∧
    Forall (λ e, e ≠ CallAdjustTemperature ∧ e ≠ CallUpdateTargets) new.
Proof.
  pose proof (train_once_outcome itr paths w) as Hwp. unfold wp in Hwp.
  destruct (train_once itr paths w) as [a w'|e w']; simpl.
  - destruct Hwp as [Hn [_ _ _ (new & Hlog & ->)]]. split; [by left|].
    exists [], (buffer_sample (replay_buffer (self w)) 0 (rng w)).1, 0%nat.
    split_and!; [done|done|constructor].
  - destruct Hwp as [_ _ _ (new & Hlog & b & k & -> & _)]. split; [eauto|].
    exists (take k (train_trace (buffer_batch_size (self w)) b)), b, k.
    split_and!; [done|done|apply take_train_trace_allowed].
Qed.

Lemma train_once_raises itr (paths : raw_paths) (w : world) :
  n_epoch_cycles (self w) ≠ 0%nat → n_train_steps (self w) ≠ 0%nat →
  ∃ e w' b k,
    train_once itr paths w = Raise e w' ∧
    log w' = log w ++ take k (train_trace (buffer_batch_size (self w)) b) ∧
    (1 ≤ k)%nat ∧ (ipdb_importable w = true → (2 ≤ k)%nat).
Proof.
  intros Hcycles Hsteps.
  pose proof (train_once_outcome itr paths w) as Hwp. unfold wp in Hwp.
  destruct (train_once itr paths w) as [a w'|e w'].
  - by destruct Hwp as [Hn _].
  - destruct Hwp as [_ _ _ (new & Hlog & b & k & -> & Hk1 & Hk2)].
    exists e, w', b, k. split_and!; auto.
Qed.

(** C6 (the code departs from the claim).  Where [ipdb] can be imported, a
    call of [train_once] with a training step to run stops in the debugger
    right after it has sampled, and when resumed it does not run to
    completion: it raises. *)
Theorem train_once_stops_in_debugger itr (paths : raw_paths) (w : world) :
  n_epoch_cycles (self w) ≠ 0%nat → n_train_steps (self w) ≠ 0%nat →
  ipdb_importable w = true →
  ∃ e w' b rest,
    train_once itr paths w = Raise e w' ∧
    log w' = log w ++ Sampled (buffer_batch_size (self w)) b :: Breakpoint :: rest.
Proof.
  intros Hcycles Hsteps Hipdb.
  destruct (train_once_raises itr paths w Hcycles Hsteps)
    as (e & w' & b & k & Hrun & Hlog & _ & Hk).
  specialize (Hk Hipdb). destruct k as [|[|k]]; [lia|lia|].
  exists e, w', b. eexists. split; [done|]. rewrite Hlog. simpl. done.
Qed.

(** C7 (the code departs from the claim).  With fewer transitions in the
    replay buffer than [min_buffer_size], a call of [train_once] with a
    training step to run still samples from the buffer: no guard is tested
    before the sampling. *)
Theorem train_once_samples_unguarded itr (paths : raw_paths) (w : world) :
  (n_transitions_stored (replay_buffer (self w)) < min_buffer_size (self w))%nat →
  n_epoch_cycles (self w) ≠ 0%nat → n_train_steps (self w) ≠ 0%nat →
  ∃ e w' b rest,
    train_once itr paths w = Raise e w' ∧
    log w' = log w ++ Sampled (buffer_batch_size (self w)) b :: rest.
Proof.
  intros _ Hcycles Hsteps.
  destruct (train_once_raises itr paths w Hcycles Hsteps)
    as (e & w' & b & k & Hrun & Hlog & Hk & _).
  destruct k as [|k]; [lia|].
  exists e, w', b. eexists. split; [done|]. rewrite Hlog. simpl. done.
Qed.
End Departures.

Lemma train_once_stops_in_debugger_witness :
  ∃ e w' b rest,
    train_once 0%nat Toy.no_paths Toy.world0 = Raise e w' ∧
    log w' = Sampled 2%nat b :: Breakpoint :: rest.
Proof.
  apply (train_once_stops_in_debugger (H := Toy.framework) 0%nat Toy.no_paths Toy.world0).
  - simpl. lia.
  - simpl. lia.
  - reflexivity.
Defined.

Lemma train_once_samples_unguarded_witness :
  ∃ e w' b rest,
    train_once 0%nat Toy.no_paths Toy.world0 = Raise e w' ∧
    log w' = Sampled 2%nat b :: rest.
Proof.
  apply (train_once_samples_unguarded (H := Toy.framework) 0%nat Toy.no_paths Toy.world0).
  - simpl. lia.
  - simpl. lia.
  - simpl. lia.
Defined.

(** The run of [train_once] on the small instance: it samples, stops, updates
    the critics, stops, and fails in the actor update at the attribute
    [backwards]; the targets are as the constructor left them. *)
Lemma train_once_on_toy :
  let o := train_once 0%nat Toy.no_paths Toy.world0 in
  match o with
  | Raise e _ => e = AttributeError "backwards"
  | Ok _ _ => False
  end ∧
  log (final o) = train_trace 2%nat Toy.samples0 ∧
  heap (final o) !! 4%nat = Some (Toy.net 2 1) ∧
  heap (final o) !! 5%nat = Some (Toy.net 3 1).
Proof.
  split_and!.
  - vm_compute. reflexivity.
  - reflexivity.
  - vm_compute. reflexivity.
  - vm_compute. reflexivity.
Qed.

(** The actor update on the small instance fails at the attribute
    [backwards]. *)
Lemma optimize_policy_on_toy :
  match optimize_policy 0%nat Toy.samples0 Toy.world0 with
  | Raise e _ => e = AttributeError "backwards"
  | Ok _ _ => False
  end.
Proof. vm_compute. reflexivity. Qed.

(** * Further properties of the code *)

(** ** The greedy policy on any output of the Q-function *)

Section ArgmaxMore.
Context {qfunction : Type}.
Variable forward : qfunction → ndarray → result ndarray.

Lemma squeeze0_data (a : ndarray) : data (squeeze0 a) = data a.
Proof.
  unfold squeeze0. destruct (shape a) as [|[|[|n]] s]; reflexivity.
Qed.

(** X1.  [get_action] returns an action exactly when the Q-function returns
    an output with at least one element; whatever the shape of that output
    (one row or several, any rank), the action is the position of the first
    largest element in the flattened output, so with more than one row it
    is not an index into a row.  In every case the policy object is left as
    it was. *)
Theorem get_action_flat_index (self : ArgmaxDiscretePolicy) (obs : ndarray) :
  ((∃ a info, (get_action forward self obs).1 = Val (a, info)) ↔
   (∃ out, forward (qf self) (expand_dims0 obs) = Val out ∧ data out ≠ [])) ∧
  (∀ out a info,
     forward (qf self) (expand_dims0 obs) = Val out →
     (get_action forward self obs).1 = Val (a, info) →
     info = ∅ ∧
     ∃ qa, data out !! a = Some qa ∧
           (∀ j q, data out !! j = Some q → q ≤ qa) ∧
           (∀ j q, (j < a)%nat → data out !! j = Some q → q < qa)) ∧
  (get_action forward self obs).2 = self.
Proof.
  unfold get_action, from_numpy_float, get_numpy. simpl.
  destruct (forward (qf self) (expand_dims0 obs)) as [out|e] eqn:Hfw; simpl.
  - destruct (data out) as [|x l] eqn:Hdata.
    + unfold argmax. rewrite squeeze0_data, Hdata. simpl. split_and!.
      * split; [by intros (a & info & [=])|].
        intros (out' & [= <-] & Hne). by rewrite Hdata in Hne.
      * by intros out' a info _ [=].
      * done.
    + destruct (argmax_first_max (squeeze0 out)) as (i & qi & Ha & Hi & Hmax & Hfirst).
      { by rewrite squeeze0_data, Hdata. }
      rewrite Ha. simpl. rewrite squeeze0_data in Hi, Hmax, Hfirst.
      split_and!.
      * split; [|by eauto]. intros _. exists out. by rewrite Hdata.
      * intros out' a info [= <-] [= <- <-]. split; [done|]. eauto.
      * done.
  - split_and!.
    + split; [by intros (a & info & [=])|by intros (out & [=] & _)].
    + by intros out a info [=].
    + done.
Qed.
End ArgmaxMore.

(** The Q-function answers with two rows: the largest value is the first
    entry of the second row and the action returned is 2, which is no index
    into a row of two values. *)
Lemma get_action_flat_index_on_two_rows :
  (get_action Cases.two_rows {| qf := tt |} Cases.obs2).1 = Val (2%nat, ∅).
Proof. reflexivity. Qed.

(** ** The constructor *)

Section ConstructorMore.
Context `{Framework}.


(** X3.  The target entropy the constructor stores.  Without automatic
    entropy tuning the attribute is not set.  With it, a supplied value
    other than zero is kept, and a missing value or the value zero is
    replaced by minus the product of the action space's dimensions: zero
    counts as "not supplied". *)
Theorem SAC_init_target_entropy action_shape pol q1 q2 α rb te auto γ bs mbs
    τ plr qlr (h h' : gmap loc module) (s : SAC) :
  SAC_init action_shape pol q1 q2 α rb te auto γ bs mbs τ plr qlr h
    = Val (s, h') →
  (auto = false → target_entropy s = None) ∧
  (auto = true → te = None ∨ te = Some 0 →
   target_entropy s
     = Some (- Q2Qc (inject_Z (Z.of_nat (foldr Nat.mul 1%nat action_shape))))) ∧
  (auto = true → ∀ e, te = Some e → e ≠ 0 → target_entropy s = Some e).
Proof.
  unfold SAC_init, result_bind. intros Hinit.
  repeat case_match; simplify_eq; simpl.
  all: split_and!; try done.
  all: try (intros _ [?|?]; by simplify_eq).
  all: try (intros _ e' ? ?; by simplify_eq).
Qed.



End ConstructorMore.

(** ** Repeated target synchronization *)

Section RepeatedSynchronization.
Context `{Framework}.




End RepeatedSynchronization.



Lemma SAC_init_target_entropy_witness :
  target_entropy Toy.trainer0 = None.
Proof.
  apply (SAC_init_target_entropy (H := Toy.framework) [1%nat] 0%nat 1%nat
           2%nat 1 0%nat None false one_half 2%nat 100%nat one_half one_half
           one_half Toy.heap0 Toy.heap1 Toy.trainer0).
  - reflexivity.
  - reflexivity.
Defined.


(** ** What a call of [train_once] keeps and what it changes *)

Section TrainOnceMore.
Context `{Framework}.
Implicit Types (w : world) (s : SAC).

Lemma wp_conj {A} (m : M A) (Φ1 Φ2 : A → world → Prop)
    (Ψ1 Ψ2 : exn → world → Prop) w :
  wp m Φ1 Ψ1 w → wp m Φ2 Ψ2 w →
  wp m (λ a w', Φ1 a w' ∧ Φ2 a w') (λ e w', Ψ1 e w' ∧ Ψ2 e w') w.
Proof. unfold wp. by destruct (m w). Qed.

Lemma statistics_set_optimizer o v s :
  statistics (set_optimizer o v s) = statistics s.
Proof. by destruct o. Qed.

(** The comprehension keeps the entries whose flag is set, as far as both
    lists reach. *)
Lemma completed_elem_of (xs : list scalar) (cs : list bool) (x : scalar) :
  x ∈ completed xs cs ↔ ∃ i, xs !! i = Some x ∧ cs !! i = Some true.
Proof.
  unfold completed. rewrite list_elem_of_fmap. split.
  - intros ([y c] & -> & Hin). apply list_elem_of_filter in Hin as [Hc Hin].
    simpl in Hc. subst c. apply list_elem_of_lookup in Hin as [i Hi].
    apply lookup_zip_Some in Hi. by exists i.
  - intros (i & Hx & Hc). exists (x, true). split; [done|].
    apply list_elem_of_filter. split; [done|].
    apply list_elem_of_lookup. exists i. by apply lookup_zip_Some.
Qed.

Section Statistics.
(** The invariant of this section: the lists of episode statistics are
    [c]. *)
Variable c : list scalar * list scalar.

Lemma zero_grad_statistics o w :
  statistics (self w) = c →
  wp (zero_grad o) (λ _ w', statistics (self w') = c)
     (λ _ w', statistics (self w') = c) w.
Proof.
  intros HI. unfold zero_grad.
  do 4 wp_step. destruct (heap w !! _); [|done]. by wp_step.
Qed.

Lemma call_method_statistics (t : loss) name w :
  statistics (self w) = c →
  wp (call_method t name) (λ _ w', statistics (self w') = c)
     (λ _ w', statistics (self w') = c) w.
Proof.
  intros HI. unfold call_method, tensor_getattr.
  case_decide; [|by apply wp_raise]. unfold backward.
  destruct (grad_fn t) as [[leaf f]|]; [|by apply wp_raise].
  do 2 wp_step. destruct (heap w !! leaf); [|done]. by wp_step.
Qed.

Lemma step_statistics o w :
  statistics (self w) = c →
  wp (step o) (λ _ w', statistics (self w') = c)
     (λ _ w', statistics (self w') = c) w.
Proof.
  intros HI. unfold step.
  do 4 wp_step. destruct (heap w !! _) as [m|]; [|done].
  destruct (grad m) as [g|]; [|by apply wp_ret].
  destruct (optimizer_step _ _ _) as [θ st].
  do 3 wp_step. simpl. by rewrite statistics_set_optimizer.
Qed.

Lemma update_q_functions_statistics itr samples w :
  statistics (self w) = c →
  wp (update_q_functions itr samples) (λ _ w', statistics (self w') = c)
     (λ _ w', statistics (self w') = c) w.
Proof.
  intros HI. unfold update_q_functions.
  do 4 wp_step. destruct (heap w !! policy (self w)); [|done].
  do 2 wp_step.
  apply (wp_for_each (λ w', statistics (self w') = c)); [done|].
  intros [target_qf [qf qf_optimizer]] w' _ HI'.
  do 2 wp_step. destruct (heap w' !! qf); [|done].
  do 2 wp_step. destruct (heap w' !! target_qf); [|done].
  do 4 wp_step. destruct (broadcast2 _ _ _); [|done].
  do 2 wp_step. destruct (broadcast2 _ _ _); [|done].
  do 2 wp_step. destruct (result_bind _ _); [|done].
  wp_step. eapply wp_mono; [by apply zero_grad_statistics| |done].
  intros [] w1 HI1. simpl. wp_step.
  eapply wp_mono; [by apply call_method_statistics| |done].
  intros [] w2 HI2. simpl. by apply step_statistics.
Qed.
End Statistics.

(** The skeleton of [train_once] for an invariant [I] that the two
    updates keep: the invariant holds where the call ends, and the call
    returns only the mean of the extended list of returns. *)
Lemma train_once_invariant (I : world → Prop) itr paths w0 :
  n_epoch_cycles (self w0) ≠ 0%nat →
  I (set_self (extended (process_samples itr paths) (self w0)) w0) →
  (∀ w r, I w → I (set_rng r w)) →
  (∀ w e, I w → I (set_log (log w ++ [e]) w)) →
  (∀ w b, I w → wp (update_q_functions itr b) (λ _, I) (λ _, I) w) →
  (∀ w b, I w → wp (optimize_policy itr b) (λ _ _, False) (λ _, I) w) →
  wp (train_once itr paths)
     (λ v w, I w ∧
        v = mean (episode_rewards
                    (extended (process_samples itr paths) (self w0))))
     (λ _, I) w0.
Proof.
  intros Hcycles HI1 Hrng Hlog Hq Hπ. unfold train_once.
  do 3 wp_step. case_decide; [done|].
  do 5 wp_step.
  change (set_self _ (set_self _ w0))
    with (set_self (extended (process_samples itr paths) (self w0)) w0).
  set (w1 := set_self _ w0) in *.
  do 3 wp_step. eapply wp_mono.
  - apply (wp_for_each_raises I (λ _, I)); [done|].
    intros train_itr w HI.
    do 4 wp_step. unfold set_trace. do 2 wp_step.
    apply wp_bind, wp_import_ipdb.
    assert (∀ w' e, ipdb_importable (set_log (log w' ++ [e]) w')
                    = ipdb_importable w') as Hipdb by done.
    destruct (ipdb_importable _); [|by apply Hlog, Hrng].
    do 4 wp_step. apply wp_bind. eapply wp_mono.
    { apply Hq. by do 3 apply Hlog; apply Hrng. }
    2:{ done. }
    intros [] w6 HI6. simpl.
    apply wp_bind, wp_import_ipdb.
    destruct (ipdb_importable w6); [|done].
    do 4 wp_step. wp_step. eapply wp_mono.
    { apply Hπ. by do 2 apply Hlog. }
    + done.
    + done.
  - intros [] w [_ HI]. simpl. wp_step. done.
  - done.
Qed.

(** X6.  A call of [train_once] (the base class having set a number of
    epoch cycles other than zero): where the call ends, by a return or by an
    exception, the list of episode returns is the old list followed by the
    returns of the completed paths, and the success list likewise: the two
    [extend] calls are not undone when the call fails later, and neither
    update touches the lists.  A value [x] is in the new list of returns
    exactly when it was in the old one or is the return of some path whose
    [complete] flag is set.  When the call returns, it returns the mean of
    the extended list of returns. *)
Theorem train_once_extends_statistics itr (paths : raw_paths) w :
  n_epoch_cycles (self w) ≠ 0%nat →
  let p := process_samples itr paths in
  let w' := final (train_once itr paths w) in
  episode_rewards (self w')
    = episode_rewards (self w)
        ++ completed (undiscounted_returns p) (complete p) ∧
  success_history (self w')
    = success_history (self w)
        ++ completed (path_success_history p) (complete p) ∧
  (∀ x, x ∈ episode_rewards (self w') ↔
        x ∈ episode_rewards (self w) ∨
        ∃ i, undiscounted_returns p !! i = Some x ∧
             complete p !! i = Some true) ∧
  match train_once itr paths w with
  | Ok v _ => v = mean (episode_rewards (self w'))
  | Raise _ _ => True
  end.
Proof.
  intros Hcycles p w'.
  set (c := statistics (extended p (self w))).
  pose proof (train_once_invariant (λ w1, statistics (self w1) = c)
                itr paths w Hcycles) as Hwp.
  assert (statistics (self w') = c ∧
          match train_once itr paths w with
          | Ok v _ => v = mean (episode_rewards (extended p (self w)))
          | Raise _ _ => True
          end) as [Hstat Hret].
  { unfold w', wp, final in *.
    destruct (train_once itr paths w) as [v w1|e w1]; [|split; [|done]];
      apply Hwp; try done.
    all: try (intros w2 b HI; by apply update_q_functions_statistics).
    all: intros w2 b HI; (eapply wp_mono;
           [apply optimize_policy_no_step|done|]);
         intros e' w3 [_ Hs]; simpl; by rewrite Hs. }
  assert (episode_rewards (self w')
          = episode_rewards (self w)
              ++ completed (undiscounted_returns p) (complete p)) as Her
    by (by apply (f_equal fst) in Hstat).
  split_and!.
  - done.
  - by apply (f_equal snd) in Hstat.
  - intros x. rewrite Her, elem_of_app, completed_elem_of. done.
  - destruct (train_once itr paths w); [|done]. by rewrite Her.
Qed.

Lemma train_once_zero_cycles itr (paths : raw_paths) w :
  n_epoch_cycles (self w) = 0%nat →
  train_once itr paths w = Raise ZeroDivisionError w.
Proof.
  intros Hz. unfold train_once, mbind, M_bind, bind, gets. simpl.
  by rewrite decide_True.
Qed.

Lemma framed_record_any F w0 w e :
  framed F (λ _, True) w0 w →
  framed F (λ _, True) w0 (set_log (log w ++ [e]) w).
Proof.
  intros [Hc Hi Hh (new & Hl & _)]. split; simpl; try done.
  exists (new ++ [e]). by rewrite Hl, <- app_assoc.
Qed.

Lemma live_footprint_config s s' :
  config s = config s' → live_footprint s = live_footprint s'.
Proof.
  intros Hc. unfold live_footprint.
  destruct (config_eq_inv _ _ Hc) as (-> & -> & _ & _ & -> & -> & -> & _).
  done.
Qed.

Lemma well_formed_config s s' :
  config s = config s' → well_formed s → well_formed s'.
Proof.
  intros Hc. unfold well_formed.
  destruct (config_eq_inv _ _ Hc)
    as (-> & -> & -> & -> & -> & -> & -> & -> & -> & _).
  done.
Qed.

(** [train_once] writes only the live critics and the networks of the
    optimizers, and leaves the parameters of the live policy as they
    were. *)
Lemma train_once_live itr (paths : raw_paths) w :
  well_formed (self w) →
  framed (live_footprint (self w)) (λ _, True) w
         (final (train_once itr paths w)) ∧
  parameters <$> heap (final (train_once itr paths w)) !! policy (self w)
    = parameters <$> heap w !! policy (self w).
Proof.
  intros Hwf.
  destruct (decide (n_epoch_cycles (self w) = 0%nat)) as [Hz|Hcycles].
  { rewrite train_once_zero_cycles by done. simpl. split; [|done].
    by apply framed_refl. }
  set (I := λ w1, framed (live_footprint (self w)) (λ _, True) w w1 ∧
                  parameters <$> heap w1 !! policy (self w)
                    = parameters <$> heap w !! policy (self w)).
  enough (I (final (train_once itr paths w))) by done.
  pose proof (train_once_invariant I itr paths w Hcycles) as Hwp.
  unfold wp, final in *.
  enough (match train_once itr paths w with
          | Ok _ w1 => I w1
          | Raise _ w1 => I w1
          end) as Hfin by (by destruct (train_once itr paths w)).
  assert (I (set_self (extended (process_samples itr paths) (self w)) w))
    as H1.
  { split; [|done]. apply framed_set_self; [by apply framed_refl|done]. }
  assert (∀ w1 r, I w1 → I (set_rng r w1)) as H2.
  { intros w1 r [Hf Hp]. split; [by apply framed_set_rng|done]. }
  assert (∀ w1 e, I w1 → I (set_log (log w1 ++ [e]) w1)) as H3.
  { intros w1 e [Hf Hp]. split; [by apply framed_record_any|done]. }
  assert (∀ w1 b, I w1 →
            match update_q_functions itr b w1 with
            | Ok _ w2 => I w2
            | Raise _ w2 => I w2
            end) as H4.
  { intros w1 b [Hf Hp].
    pose proof (update_q_functions_framed (live_footprint (self w))
                  (λ _, True) w itr b w1 Hf) as Hlive.
    pose proof (update_q_functions_framed (critic_footprint (self w1))
                  (λ _, True) w1 itr b w1) as Hcr.
    assert (policy (self w) ∉ critic_footprint (self w1)) as Hnot.
    { unfold critic_footprint.
      destruct (config_eq_inv _ _ (framed_config _ _ _ _ Hf))
        as (-> & -> & _ & _ & _ & -> & -> & _).
      destruct Hwf as (_ & -> & -> & Hnd).
      pose proof (NoDup_distinct _ 0 1 _ _ Hnd eq_refl eq_refl
                    ltac:(done)).
      pose proof (NoDup_distinct _ 0 2 _ _ Hnd eq_refl eq_refl
                    ltac:(done)).
      intros Hin.
      repeat (apply elem_of_cons in Hin as [Hin|Hin]; [congruence|]).
      by apply elem_of_nil in Hin. }
    unfold wp in *.
    destruct (update_q_functions itr b w1) as [[] w2|e w2].
    - split; [apply Hlive; unfold live_footprint; in_list|].
      rewrite <- Hp. f_equal.
      apply (framed_heap _ _ _ _ (Hcr ltac:(by apply framed_refl)
               ltac:(unfold critic_footprint; in_list)
               ltac:(unfold critic_footprint; in_list)
               ltac:(unfold critic_footprint; in_list)
               ltac:(unfold critic_footprint; in_list))). done.
    - split; [apply Hlive; unfold live_footprint; in_list|].
      rewrite <- Hp. f_equal.
      apply (framed_heap _ _ _ _ (Hcr ltac:(by apply framed_refl)
               ltac:(unfold critic_footprint; in_list)
               ltac:(unfold critic_footprint; in_list)
               ltac:(unfold critic_footprint; in_list)
               ltac:(unfold critic_footprint; in_list))). done. }
  assert (∀ w1 b, I w1 →
            match optimize_policy itr b w1 with
            | Ok _ _ => False
            | Raise _ w2 => I w2
            end) as H5.
  { intros w1 b [Hf Hp].
    pose proof (optimize_policy_raises (live_footprint (self w))
                  (λ _, True) w itr b w1 Hf) as Hlive.
    pose proof (optimize_policy_no_step itr b w1) as Hsame.
    unfold wp in *.
    destruct (optimize_policy itr b w1) as [[] w2|e w2]; [done|].
    split; [apply Hlive; unfold live_footprint; in_list|].
    destruct Hsame as [Hsame _]. by rewrite <- Hp, <- (Hsame _). }
  specialize (Hwp H1 H2 H3 H4 H5).
  by destruct (train_once itr paths w) as [v w1|e w1]; [destruct Hwp|].
Qed.

(** X7.  Any number of calls of [train_once], one after the other, on a
    trainer as the constructor leaves it (optimizers bound to their
    networks, six different network objects): the three target networks are
    never written, so the target critics never move towards the live
    critics; the parameters of the live policy are those before the first
    call, so no call ever improves the policy; and the configuration of the
    trainer is unchanged. *)
Theorem train_all_keeps_targets_and_policy
    (calls : list (nat * raw_paths)) w :
  well_formed (self w) →
  heap (train_all calls w) !! target_policy (self w)
    = heap w !! target_policy (self w) ∧
  heap (train_all calls w) !! target_qf1 (self w)
    = heap w !! target_qf1 (self w) ∧
  heap (train_all calls w) !! target_qf2 (self w)
    = heap w !! target_qf2 (self w) ∧
  parameters <$> heap (train_all calls w) !! policy (self w)
    = parameters <$> heap w !! policy (self w) ∧
  config (self (train_all calls w)) = config (self w).
Proof.
  intros Hwf.
  enough (framed (live_footprint (self w)) (λ _, True) w (train_all calls w) ∧
          parameters <$> heap (train_all calls w) !! policy (self w)
            = parameters <$> heap w !! policy (self w)) as [Hf Hp].
  { assert (∀ i l, [policy (self w); qf1 (self w); qf2 (self w);
                    target_policy (self w); target_qf1 (self w);
                    target_qf2 (self w)] !! i = Some l →
                   (3 ≤ i)%nat → l ∉ live_footprint (self w)) as Hnot.
    { intros i l Hi Hge. unfold live_footprint.
      destruct Hwf as (-> & -> & -> & Hnd).
      pose proof (λ j x Hj, NoDup_distinct _ i j l x Hnd Hi Hj) as Hd.
      pose proof (Hd 0%nat _ eq_refl). pose proof (Hd 1%nat _ eq_refl).
      pose proof (Hd 2%nat _ eq_refl).
      assert (i ≠ 0 ∧ i ≠ 1 ∧ i ≠ 2)%nat as (? & ? & ?) by lia.
      intros Hin.
      repeat (apply elem_of_cons in Hin as [Hin|Hin]; [naive_solver|]).
      by apply elem_of_nil in Hin. }
    split_and!; try done.
    - apply (framed_heap _ _ _ _ Hf), (Hnot 3%nat); [done|lia].
    - apply (framed_heap _ _ _ _ Hf), (Hnot 4%nat); [done|lia].
    - apply (framed_heap _ _ _ _ Hf), (Hnot 5%nat); [done|lia].
    - apply (framed_config _ _ _ _ Hf). }
  unfold train_all. revert w Hwf.
  induction calls as [|[itr paths] calls IH]; intros w Hwf; simpl.
  { split; [by apply framed_refl|done]. }
  destruct (train_once_live itr paths w Hwf) as [Hf1 Hp1].
  set (w1 := final (train_once itr paths w)) in *.
  pose proof (framed_config _ _ _ _ Hf1) as Hc.
  destruct (IH w1) as [Hf2 Hp2]; [by apply (well_formed_config (self w))|].
  rewrite (live_footprint_config _ _ Hc) in Hf2.
  assert (policy (self w1) = policy (self w)) as Hpol
    by (by destruct (config_eq_inv _ _ Hc) as (_ & _ & _ & _ & _ & _ & _ & -> & _)).
  rewrite Hpol in Hp2. split; [|by rewrite Hp2].
  eapply framed_trans; [done|exact Hf1|exact Hf2].
Qed.
End TrainOnceMore.

(** The two theorems on the small instance: a call with two trajectories,
    one of them completed, and two calls in a row. *)
Lemma train_once_extends_statistics_witness :
  episode_rewards (self (final (train_once 1%nat Cases.two_paths Toy.world0)))
    = [1 + 1].
Proof.
  destruct (train_once_extends_statistics (H := Toy.framework) 1%nat
              Cases.two_paths Toy.world0) as (Her & _).
  - vm_compute. lia.
  - exact Her.
Defined.

Lemma train_all_keeps_targets_and_policy_witness :
  heap (train_all Cases.two_calls Toy.world0) !! 4%nat = Some (Toy.net 2 1).
Proof.
  destruct (train_all_keeps_targets_and_policy (H := Toy.framework)
              Cases.two_calls Toy.world0) as (_ & Ht1 & _).
  - vm_compute. split_and!; try reflexivity.
    apply (bool_decide_unpack _). vm_compute. exact I.
  - exact Ht1.
Defined.

(** ** The calls on their error paths *)

Section ErrorPaths.
Context `{Framework}.
Implicit Types (w : world).

Lemma broadcast2_mismatch f (a b : tensor) :
  length a ≠ length b → length a ≠ 1%nat → length b ≠ 1%nat →
  ∃ msg, broadcast2 f a b = Exn (RuntimeError msg).
Proof.
  intros Hab Ha Hb. unfold broadcast2. rewrite decide_False by done.
  destruct a as [|x [|x' a]], b as [|y [|y' b]]; simpl in *; try done;
    eauto.
Qed.

(** X8.  The actor update on networks that exist, with the policy optimizer
    bound to the policy and outputs of matching sizes: the call raises
    [AttributeError] for the attribute [backwards], and by then it has drawn
    one reparameterized sample, so the random generator has advanced, and
    [zero_grad] has cleared the [.grad] of the policy.  The policy's
    parameters, every other object, the trainer and the log are as
    before. *)
Theorem optimize_policy_outcome itr (samples : minibatch) w
    (mπ m1 m2 : module) :
  let s := self w in
  let obs := observation samples in
  let drawn := rsample (policy_forward (parameters mπ) obs) (rng w) in
  let q1 := qf_forward (parameters m1) obs drawn.1 in
  let q2 := qf_forward (parameters m2) obs drawn.1 in
  heap w !! policy s = Some mπ →
  heap w !! qf1 s = Some m1 →
  heap w !! qf2 s = Some m2 →
  opt_params (policy_optimizer s) = policy s →
  length q1 = length q2 →
  length (log_likelihood (parameters mπ) obs drawn.1) = length q1 →
  optimize_policy itr samples w
    = Raise (AttributeError "backwards")
        {| heap := <[policy s := {| parameters := parameters mπ;
                                    grad := None |}]> (heap w);
           self := s; rng := drawn.2; log := log w;
           ipdb_importable := ipdb_importable w |}.
Proof.
  intros s obs drawn q1 q2 Hπ H1 H2 Hopt Hlen Hll.
  enough (wp (optimize_policy itr samples) (λ _ _, False)
            (λ e w', Raise e w'
               = Raise (A := unit) (AttributeError "backwards")
                   {| heap := <[policy s := {| parameters := parameters mπ;
                                               grad := None |}]> (heap w);
                      self := s; rng := drawn.2; log := log w;
                      ipdb_importable := ipdb_importable w |}) w) as Hwp.
  { unfold wp in Hwp. by destruct (optimize_policy itr samples w). }
  unfold optimize_policy. fold s obs.
  do 4 wp_step. fold s. rewrite Hπ.
  do 4 wp_step. world_flat. fold s drawn. rewrite H1.
  do 2 wp_step. world_flat. fold s. rewrite H2.
  do 2 wp_step. fold q1 q2. rewrite broadcast2_same_length by done.
  do 2 wp_step. rewrite broadcast2_same_length.
  2:{ rewrite scale_length, length_zip_with. lia. }
  wp_step. unfold zero_grad. do 4 wp_step. world_flat. fold s.
  rewrite Hopt, Hπ. do 2 wp_step. world_flat.
  unfold wp. by rewrite call_method_backwards.
Qed.

(** X9.  The critic update on a minibatch whose rewards have another
    number of entries than the target critic's values for the next
    observations, neither being a single entry: the sum of the rewards and
    the discounted bootstrap cannot be broadcast, and the call raises
    [RuntimeError] while building the first regression target.  By then it
    has drawn the next actions, so the random generator has advanced;
    no network, no optimizer and no attribute of the trainer has been
    written. *)
Theorem update_q_functions_shape_error itr (samples : minibatch) w
    (mπ m1 mt1 : module) :
  let s := self w in
  let next_obs := next_observation samples in
  let drawn := get_actions (parameters mπ) next_obs (rng w) in
  let q' := qf_forward (parameters mt1) next_obs drawn.1 in
  heap w !! policy s = Some mπ →
  heap w !! qf1 s = Some m1 →
  heap w !! target_qf1 s = Some mt1 →
  length (log_likelihood (parameters mπ) next_obs drawn.1) = length q' →
  length (reward samples) ≠ length q' →
  length (reward samples) ≠ 1%nat →
  length q' ≠ 1%nat →
  ∃ msg, update_q_functions itr samples w
           = Raise (RuntimeError msg)
               {| heap := heap w; self := s; rng := drawn.2; log := log w;
                  ipdb_importable := ipdb_importable w |}.
Proof.
  intros s next_obs drawn q' Hπ H1 Ht1 Hll Hr Hr1 Hq1.
  destruct (broadcast2_mismatch Qcplus (reward samples)
              (scale (discount s) (zip_with Qcminus q'
                 (scale (alpha s)
                    (log_likelihood (parameters mπ) next_obs drawn.1)))))
    as [msg Hmsg].
  { rewrite scale_length, length_zip_with, scale_length. lia. }
  { done. }
  { rewrite scale_length, length_zip_with, scale_length. lia. }
  exists msg.
  enough (wp (update_q_functions itr samples) (λ _ _, False)
            (λ e w', Raise e w'
               = Raise (A := unit) (RuntimeError msg)
                   {| heap := heap w; self := s; rng := drawn.2;
                      log := log w;
                      ipdb_importable := ipdb_importable w |}) w) as Hwp.
  { unfold wp in Hwp. by destruct (update_q_functions itr samples w). }
  unfold update_q_functions. fold s next_obs.
  do 4 wp_step. fold s. rewrite Hπ.
  do 2 wp_step. fold drawn. simpl zip. simpl for_each.
  do 3 wp_step. world_flat. fold s. rewrite H1.
  do 2 wp_step. world_flat. fold s. rewrite Ht1.
  do 4 wp_step. world_flat. fold s q'.
  rewrite broadcast2_same_length by (by rewrite scale_length).
  do 2 wp_step. rewrite Hmsg. done.
Qed.

(** X10.  [train_once] where [ipdb] is not installed, with a training step
    to run: the call raises [ModuleNotFoundError] at the first
    [import ipdb].  By then the episode statistics are extended, one
    minibatch of [buffer_batch_size] transitions has been sampled and the
    random generator has advanced; no network has been read or written, so
    the heap is as before. *)
Theorem train_once_without_ipdb itr (paths : raw_paths) w :
  let s := self w in
  let sampled := buffer_sample (replay_buffer s) (buffer_batch_size s) (rng w) in
  n_epoch_cycles s ≠ 0%nat →
  n_train_steps s ≠ 0%nat →
  ipdb_importable w = false →
  train_once itr paths w
    = Raise (ModuleNotFoundError "ipdb")
        {| heap := heap w;
           self := extended (process_samples itr paths) s;
           rng := sampled.2;
           log := log w ++ [Sampled (buffer_batch_size s) sampled.1];
           ipdb_importable := false |}.
Proof.
  intros s sampled Hcycles Hsteps Hipdb.
  enough (wp (train_once itr paths) (λ _ _, False)
            (λ e w', Raise e w'
               = Raise (A := fscalar) (ModuleNotFoundError "ipdb")
                   {| heap := heap w;
                      self := extended (process_samples itr paths) s;
                      rng := sampled.2;
                      log := log w ++ [Sampled (buffer_batch_size s) sampled.1];
                      ipdb_importable := false |}) w) as Hwp.
  { unfold wp in Hwp. by destruct (train_once itr paths w). }
  unfold train_once. fold s.
  do 3 wp_step. fold s. rewrite decide_False by done.
  do 8 wp_step. world_flat. fold s.
  destruct (n_train_steps s) as [|n]; [done|]. simpl seq. simpl for_each.
  do 5 wp_step. world_flat. fold s sampled.
  do 2 wp_step. world_flat. apply wp_bind, wp_import_ipdb. world_flat.
  rewrite Hipdb. done.
Qed.
End ErrorPaths.

(** The three theorems on the small instance. *)
Lemma optimize_policy_outcome_witness :
  ∃ w', optimize_policy 0%nat Toy.samples0 Toy.world0
          = Raise (AttributeError "backwards") w' ∧
        rng w' = 1%nat ∧ heap w' !! 0%nat = Some (Toy.net 1 0).
Proof.
  eexists. split.
  - apply (optimize_policy_outcome (H := Toy.framework) 0%nat Toy.samples0
             Toy.world0 (Toy.net 1 0) (Toy.net 2 1) (Toy.net 3 1));
      reflexivity.
  - split; reflexivity.
Defined.

Lemma update_q_functions_shape_error_witness :
  ∃ msg w', update_q_functions (H := Toy.framework) 0%nat Cases.ragged
              Toy.world0
              = Raise (RuntimeError msg) w' ∧
            heap w' = Toy.heap1 ∧ rng w' = 1%nat.
Proof.
  destruct (update_q_functions_shape_error (H := Toy.framework) 0%nat
              Cases.ragged Toy.world0 (Toy.net 1 0) (Toy.net 2 1)
              (Toy.net 2 1)) as [msg Hrun].
  - reflexivity.
  - reflexivity.
  - reflexivity.
  - reflexivity.
  - vm_compute. lia.
  - vm_compute. lia.
  - vm_compute. lia.
  - exists msg. eexists. split; [exact Hrun|]. split; reflexivity.
Defined.

Lemma train_once_without_ipdb_witness :
  ∃ w', train_once 0%nat Toy.no_paths Cases.world_without_ipdb
          = Raise (ModuleNotFoundError "ipdb") w' ∧
        heap w' = Toy.heap1 ∧ length (log w') = 1%nat.
Proof.
  eexists. split.
  - apply (train_once_without_ipdb (H := Toy.framework) 0%nat Toy.no_paths
             Cases.world_without_ipdb).
    + vm_compute. lia.
    + vm_compute. lia.
    + reflexivity.
  - split; reflexivity.
Defined.

(** ** What one call of [train_once] achieves *)

Section TrainOnceComposition.
Context `{Framework}.
Implicit Types (w : world).

(** X11.  One call of [train_once] on a trainer as the constructor leaves
    it, where [ipdb] is installed and the sampled minibatch has one value
    per sample everywhere: the call raises, and by then each live critic
    has taken exactly one step of its own optimizer along the gradient of its
    Bellman-residual loss on the sampled minibatch, with the regression
    target built from the generator state the sampling left.  The state of
    each critic optimizer is the one after that step; the policy optimizer
    is as before. *)
Theorem train_once_steps_critics_only itr (paths : raw_paths) w
    (mπ m1 m2 mt1 mt2 : module) :
  let s := self w in
  let sampled := buffer_sample (replay_buffer s) (buffer_batch_size s) (rng w) in
  let b := sampled.1 in
  let obs := observation b in
  let actions := action b in
  let next_obs := next_observation b in
  let next_actions := (get_actions (parameters mπ) next_obs sampled.2).1 in
  let B := length (reward b) in
  let step1 := gradient_step (qf1_optimizer s) (parameters m1)
                 (q_objective_fn obs actions
                    (bellman_of s (parameters mπ) (parameters mt1) b sampled.2)) in
  let step2 := gradient_step (qf2_optimizer s) (parameters m2)
                 (q_objective_fn obs actions
                    (bellman_of s (parameters mπ) (parameters mt2) b sampled.2)) in
  well_formed s →
  n_epoch_cycles s ≠ 0%nat →
  n_train_steps s ≠ 0%nat →
  ipdb_importable w = true →
  heap w !! policy s = Some mπ →
  heap w !! qf1 s = Some m1 →
  heap w !! qf2 s = Some m2 →
  heap w !! target_qf1 s = Some mt1 →
  heap w !! target_qf2 s = Some mt2 →
  length (log_likelihood (parameters mπ) next_obs next_actions) = B →
  length (qf_forward (parameters mt1) next_obs next_actions) = B →
  length (qf_forward (parameters mt2) next_obs next_actions) = B →
  length (qf_forward (parameters m1) obs actions) = B →
  length (qf_forward (parameters m2) obs actions) = B →
  ∃ e w',
    train_once itr paths w = Raise e w' ∧
    parameters <$> heap w' !! qf1 s = Some (parameters step1.1) ∧
    parameters <$> heap w' !! qf2 s = Some (parameters step2.1) ∧
    qf1_optimizer (self w') = step1.2 ∧
    qf2_optimizer (self w') = step2.2 ∧
    policy_optimizer (self w') = policy_optimizer s.
Proof.
  intros s sampled b obs actions next_obs next_actions B step1 step2
    Hwf Hcycles Hsteps Hipdb Hπ H1 H2 Ht1 Ht2 Hll Hto1 Hto2 Hc1 Hc2.
  assert (qf1 s ≠ qf2 s) as Hne.
  { destruct Hwf as (_ & _ & _ & Hnd).
    by apply (NoDup_distinct _ 1 2 _ _ Hnd). }
  enough (wp (train_once itr paths) (λ _ _, False)
            (λ _ w',
               parameters <$> heap w' !! qf1 s = Some (parameters step1.1) ∧
               parameters <$> heap w' !! qf2 s = Some (parameters step2.1) ∧
               qf1_optimizer (self w') = step1.2 ∧
               qf2_optimizer (self w') = step2.2 ∧
               policy_optimizer (self w') = policy_optimizer s) w) as Hwp.
  { unfold wp in Hwp.
    destruct (train_once itr paths w) as [v w'|e w']; [done|]. eauto. }
  unfold train_once. fold s.
  do 3 wp_step. fold s. rewrite decide_False by done.
  do 8 wp_step. world_flat. fold s.
  destruct (n_train_steps s) as [|n]; [done|]. simpl seq. simpl for_each.
  do 5 wp_step. world_flat. fold s sampled b.
  do 2 wp_step. world_flat. apply wp_bind, wp_import_ipdb. world_flat.
  rewrite Hipdb. unfold set_trace.
  do 4 wp_step. world_flat. apply wp_bind.
  unfold wp at 1.
  rewrite (update_q_functions_run itr b _ mπ m1 m2 mt1 mt2); try done.
  apply wp_bind, wp_import_ipdb. world_flat.
  do 4 wp_step. world_flat. wp_step.
  eapply wp_mono; [apply optimize_policy_no_step|done|].
  intros e w' [Hsame Hself]. simpl in Hsame, Hself.
  rewrite !Hsame, Hself. simpl.
  rewrite lookup_insert_ne, !lookup_insert_eq by done.
  split_and!; try done.
Qed.
End TrainOnceComposition.

(** On the small instance: the call fails, and the optimizer of the first
    critic has counted one step. *)
Lemma train_once_steps_critics_only_witness :
  ∃ e w', train_once 0%nat Toy.no_paths Toy.world0 = Raise e w' ∧
          opt_state (qf1_optimizer (self w')) = (one_half, 1%nat) ∧
          opt_state (policy_optimizer (self w')) = (one_half, 0%nat).
Proof.
  destruct (train_once_steps_critics_only (H := Toy.framework) 0%nat
              Toy.no_paths Toy.world0
              (Toy.net 1 0) (Toy.net 2 1) (Toy.net 3 1)
              (Toy.net 2 1) (Toy.net 3 1))
    as (e & w' & Hrun & _ & _ & Ho1 & _ & Hoπ).
  - split_and!; try reflexivity.
    apply (bool_decide_unpack _). vm_compute. exact I.
  - vm_compute. lia.
  - vm_compute. lia.
  - reflexivity.
  - reflexivity.
  - reflexivity.
  - reflexivity.
  - reflexivity.
  - reflexivity.
  - reflexivity.
  - reflexivity.
  - reflexivity.
  - reflexivity.
  - reflexivity.
  - exists e, w'. split; [exact Hrun|]. rewrite Ho1, Hoπ. split; reflexivity.
Defined.
